(** * AlphaScent figure pipeline: a shallow embedding and its properties

    The development follows the Python sources of the figure-extraction core:

    - [src/pipeline/figure_extraction/extract_figures.py]
      (caption matching, the region locator, the positional selector and
      the rate-limited PDF download) -- module [extract_figures];
    - [src/pipeline/figure_extraction/process_figures.py]
      (the transcoder) -- module [process_figures];
    - [src/pipeline/d1_client.py] (the catalog client) -- module [d1_client];
    - [src/pipeline/figure_extraction/extract_figures_batch.py]
      (the batch orchestrator) -- module [extract_figures_batch];
    - [src/pipeline/figure_extraction/sync_r2_to_d1_figures.py]
      (reading object keys back) -- module [sync_r2_to_d1_figures].

    Conventions.  Page coordinates are PyMuPDF floats; they are modelled as
    exact rationals ([Q]), so every comparison, [min], [max] and sum is the
    mathematical one.  PDF text is a list of 8-bit characters (Latin-1 code
    points).  Pixel sizes and HTTP status codes are integers ([Z]).
    Exceptions are values: a call that may raise returns a sum.  What the
    network, the file system and the libraries do is an input of the model
    (the replies received, the exceptions raised, the time a call takes).
    Time is a rational number of seconds; every Python process carries its
    own reading of the clock and its own copy of the module globals, the
    ledger file is shared. *)

From Stdlib Require Import ZArith QArith Qminmax Qabs Lqa Lia List String Ascii Bool.
From Stdlib Require Import Permutation Sorted.
From stdpp Require Import gmap strings.
Import ListNotations.

Set Default Goal Selector "!".

(** ** Text: Python [str] over Latin-1 *)

Module text.

Definition str := list ascii.

Definition of_string (s : string) : str := list_ascii_of_string s.

Definition code (c : ascii) : nat := nat_of_ascii c.

(** [str.isspace] and the regular-expression class [\s] agree on Latin-1:
    TAB..CR, FS..US, SPACE, NEL and NBSP. *)
Definition is_space (c : ascii) : bool :=
  (Nat.leb 9 (code c) && Nat.leb (code c) 13)
  || (Nat.leb 28 (code c) && Nat.leb (code c) 32)
  || Nat.eqb (code c) 133 || Nat.eqb (code c) 160.

(** The class [\d] on Latin-1: the ten ASCII digits. *)
Definition is_digit (c : ascii) : bool :=
  Nat.leb 48 (code c) && Nat.leb (code c) 57.

(** Case folding used by [re.IGNORECASE] on the letters of the pattern. *)
Definition lower (c : ascii) : ascii :=
  if Nat.leb 65 (code c) && Nat.leb (code c) 90
  then ascii_of_nat (code c + 32) else c.

Definition ci_eqb (a b : ascii) : bool := Ascii.eqb (lower a) (lower b).

Fixpoint lstrip (s : str) : str :=
  match s with
  | c :: s' => if is_space c then lstrip s' else s
  | [] => []
  end.

Definition rstrip (s : str) : str := rev (lstrip (rev s)).

(** [s.strip()] *)
Definition strip (s : str) : str := rstrip (lstrip s).

(** [s[:n]] *)
Definition slice_to (n : nat) (s : str) : str := firstn n s.

End text.

(** ** A backtracking matcher for the fragment of [re] the source uses

    [run r s] lists, in the order in which Python's backtracking engine
    tries them, the suffixes of [s] that remain after [r] has consumed a
    prefix.  [re.match] succeeds iff the list is non-empty, and
    [match.group(0)] is what the first alternative consumed. *)

Module re.
Import text.

Inductive regex : Type :=
| Lit (w : str)                  (* literal text, matched under IGNORECASE *)
| Rep0 (cls : ascii -> bool)     (* cls*  (greedy) *)
| Rep1 (cls : ascii -> bool)     (* cls+  (greedy) *)
| Opt (r : regex)                (* r?    (greedy) *)
| Alt (r1 r2 : regex)            (* r1|r2 *)
| Seq (r1 r2 : regex).           (* r1 r2 *)

Fixpoint lit (w s : str) : list str :=
  match w, s with
  | [], _ => [s]
  | a :: w', c :: s' => if ci_eqb a c then lit w' s' else []
  | _ :: _, [] => []
  end.

Fixpoint rep0 (cls : ascii -> bool) (s : str) : list str :=
  match s with
  | c :: s' => if cls c then rep0 cls s' ++ [s] else [s]
  | [] => [[]]
  end.

Definition rep1 (cls : ascii -> bool) (s : str) : list str :=
  match s with
  | c :: s' => if cls c then rep0 cls s' else []
  | [] => []
  end.

Fixpoint run (r : regex) (s : str) : list str :=
  match r with
  | Lit w => lit w s
  | Rep0 cls => rep0 cls s
  | Rep1 cls => rep1 cls s
  | Opt r1 => run r1 s ++ [s]
  | Alt r1 r2 => run r1 s ++ run r2 s
  | Seq r1 r2 => flat_map (run r2) (run r1 s)
  end.

(** The words a pattern denotes: [matches r m] says that [r] can consume
    exactly [m]. *)
Fixpoint matches (r : regex) (m : str) : Prop :=
  match r with
  | Lit w => map lower m = map lower w
  | Rep0 cls => forallb cls m = true
  | Rep1 cls => m <> [] /\ forallb cls m = true
  | Opt r1 => matches r1 m \/ m = []
  | Alt r1 r2 => matches r1 m \/ matches r2 m
  | Seq r1 r2 => exists m1 m2, m = m1 ++ m2 /\ matches r1 m1 /\ matches r2 m2
  end.

(** [re.match(r, s, re.IGNORECASE)]: [None], or [Some (match.group(0))]. *)
Definition re_match (r : regex) (s : str) : option str :=
  match run r s with
  | rest :: _ => Some (firstn (length s - length rest) s)
  | [] => None
  end.

End re.

(** ** Exceptions and HTTP replies (the part of [requests] the code uses) *)

Module requests.

(** The exception classes the handlers tell apart.  [HTTPError] carries
    [e.response] (absent, or its status code); it is a subclass of
    [RequestException], which is a subclass of [Exception]. *)
Inductive exn : Type :=
| HTTPError (response : option Z) (msg : string)
| RequestException (msg : string)
| Exception (msg : string).

(** [str(e)] *)
Definition str_exn (e : exn) : string :=
  match e with
  | HTTPError _ m => m
  | RequestException m => m
  | Exception m => m
  end.

(** [isinstance(e, requests.exceptions.RequestException)] *)
Definition is_RequestException (e : exn) : bool :=
  match e with
  | HTTPError _ _ | RequestException _ => true
  | Exception _ => false
  end.

Record Response : Type := mkResponse {
  status_code : Z;
  reason : string;          (* text of the error raised for this status *)
  content : list Byte.byte;
  json_success : bool       (* [response.json().get('success')] *)
}.

(** What a [requests.get] / [requests.post] call does: a response comes
    back, or the call raises (connection error, timeout). *)
Inductive reply : Type :=
| Replied (r : Response)
| NotReplied (e : exn).

(** [response.raise_for_status()]: an [HTTPError] carrying the response
    for every 4xx and 5xx status. *)
Definition raise_for_status (r : Response) : option exn :=
  if (Z.leb 400 (status_code r) && Z.ltb (status_code r) 600)%bool
  then Some (HTTPError (Some (status_code r)) (reason r))
  else None.

End requests.

(** ** [pipeline/config.py]: the tunables read from the environment *)

Module config.

Record t : Type := mk {
  MAX_WORKERS : Z;
  ARXIV_RATE_LIMIT : Q;
  FIGURE_MIN_WIDTH : Z;
  FIGURE_MIN_HEIGHT : Z;
  FIGURE_FULL_SIZE : Z;
  FIGURE_THUMB_SIZE : Z
}.

(** The values used when the environment sets none. *)
Definition default : t :=
  {| MAX_WORKERS := 2;
     ARXIV_RATE_LIMIT := 3.5;
     FIGURE_MIN_WIDTH := 400;
     FIGURE_MIN_HEIGHT := 200;
     FIGURE_FULL_SIZE := 800;
     FIGURE_THUMB_SIZE := 200 |}.

End config.

(** ** [pipeline/figure_extraction/extract_figures.py] *)

Module extract_figures.
Import text re.
Local Open Scope Q_scope.

Definition Qltb (a b : Q) : bool := negb (Qle_bool b a).

(** [fitz.Rect(x0, y0, x1, y1)]: four coordinates, stored as given. *)
Record Rect : Type := mkRect { x0 : Q; y0 : Q; x1 : Q; y1 : Q }.

Definition rect_eqb (r s : Rect) : bool :=
  Qeq_bool (x0 r) (x0 s) && Qeq_bool (y0 r) (y0 s)
  && Qeq_bool (x1 r) (x1 s) && Qeq_bool (y1 r) (y1 s).

(** One entry of [page.get_text("blocks")]: the box and the text. *)
Record Block : Type := mkBlock { block_rect : Rect; block_text : str }.

(** The caption dictionaries, keys ['text'], ['prefix'], ['bbox'], ['y']. *)
Record Caption : Type := mkCaption {
  cap_text : str;
  cap_prefix : str;
  cap_bbox : Rect;
  cap_y : Q
}.

(** [c == d] on two caption dictionaries. *)
Definition caption_eqb (c d : Caption) : bool :=
  bool_decide (cap_text c = cap_text d)
  && bool_decide (cap_prefix c = cap_prefix d)
  && rect_eqb (cap_bbox c) (cap_bbox d)
  && Qeq_bool (cap_y c) (cap_y d).

(** [pix = page.get_pixmap(...)]: size and PNG bytes. *)
Record Pixmap : Type := mkPixmap {
  pix_width : Z;
  pix_height : Z;
  pix_png : list Byte.byte
}.

(** A page as the extractor sees it.  [page_images] lists the boxes
    [get_image_rects] returns for the images of [get_images], in order
    (an image whose lookup raises contributes none);
    [get_pixmap clip] is [None] when rendering raises. *)
Record Page : Type := mkPage {
  page_h : Q;
  page_w : Q;
  page_blocks : list Block;
  page_images : list Rect;
  get_pixmap : Rect -> option Pixmap
}.

(** The figure dictionaries appended to [figures]. *)
Record Figure : Type := mkFigure {
  page : nat;
  width : Z;
  height : Z;
  bytes : list Byte.byte;
  caption : str;
  caption_prefix : str;
  format : string
}.

(** *** Caption matching *)

(** [r'^\s*(Figure|Fig\.?)\s+\d+'] *)
Definition caption_pattern : regex :=
  Seq (Rep0 is_space)
    (Seq (Alt (Lit (of_string "Figure"))
              (Seq (Lit (of_string "Fig")) (Opt (Lit (of_string ".")))))
       (Seq (Rep1 is_space) (Rep1 is_digit))).

(** The body of the loop over [blocks]: the caption a block gives, if any. *)
Definition block_caption (block : Block) : option Caption :=
  let text := strip (block_text block) in
  match re_match caption_pattern text with
  | Some group0 =>
      let bbox := block_rect block in
      Some {| cap_text := slice_to 200 text;
              cap_prefix := strip group0;
              cap_bbox := bbox;
              cap_y := y0 bbox |}
  | None => None
  end.

(** Whether a block's text is recognised as a caption. *)
Definition is_caption (block_text : str) : bool :=
  match re_match caption_pattern (strip block_text) with
  | Some _ => true
  | None => false
  end.

(** [list.sort(key=...)] / [sorted(..., key=...)]: a stable sort. *)
Section Sort.
Context {A : Type} (key : A -> Q).

Fixpoint insert_by (x : A) (l : list A) : list A :=
  match l with
  | [] => [x]
  | h :: t => if Qltb (key h) (key x) then h :: insert_by x t else x :: l
  end.

Definition sort_by (l : list A) : list A := fold_right insert_by [] l.

(** The order the sort establishes. *)
Definition key_le (a b : A) : Prop := key a <= key b.
End Sort.

Definition page_captions (blocks : list Block) : list Caption :=
  sort_by cap_y (omap block_caption blocks).

(** *** Horizontal bounds *)

(** The sort key of a row: [(c['bbox'].x0 + c['bbox'].x1) / 2]. *)
Definition center (c : Caption) : Q := (x0 (cap_bbox c) + x1 (cap_bbox c)) / 2.

(** The filter of the comprehension [captions_same_row]. *)
Definition same_row (caption_info c : Caption) : bool :=
  Qltb (Qabs (cap_y c - cap_y caption_info)) 50
  && negb (caption_eqb c caption_info).

(** [l.index(x)]: the position of the first element equal to [x]
    ([length l] when there is none, where Python raises). *)
Fixpoint index (l : list Caption) (x : Caption) : nat :=
  match l with
  | [] => O
  | h :: t => if caption_eqb h x then O else S (index t x)
  end.

Definition _get_horizontal_bounds (caption_info : Caption)
    (figure_captions : list Caption) (page_width : Q) : Q * Q :=
  let caption_bbox := cap_bbox caption_info in
  let captions_same_row := List.filter (same_row caption_info) figure_captions in
  match captions_same_row with
  | _ :: _ =>
      let all_in_row := sort_by center (caption_info :: captions_same_row) in
      let idx := index all_in_row caption_info in
      let left :=
        if Nat.ltb 0 idx
        then x1 (cap_bbox (nth (idx - 1) all_in_row caption_info)) + 20
        else 0 in
      let right :=
        if Nat.ltb idx (length all_in_row - 1)
        then x0 (cap_bbox (nth (idx + 1) all_in_row caption_info)) - 20
        else page_width in
      (left, right)
  | [] =>
      let margin := Qmax 50 ((x1 caption_bbox - x0 caption_bbox) * 0.3) in
      let left := Qmax 0 (x0 caption_bbox - margin) in
      let right := Qmin page_width (x1 caption_bbox + margin) in
      (left, right)
  end.

(** *** The vertical search region of caption [i] *)

(** The values the loop body computes before it looks at the images. *)
Record Region : Type := mkRegion {
  safe_top : Q;
  bottom : Q;
  is_tight : bool;
  top : Q;
  left : Q;
  right : Q
}.

Definition search_region (page_h page_w : Q) (figure_captions : list Caption)
    (i : nat) (cap : Caption) : Region :=
  let caption_bbox := cap_bbox cap in
  let safe_top :=
    if Nat.ltb 0 i
    then y1 (cap_bbox (nth (i - 1) figure_captions cap)) + 10
    else 0 in
  let bottom :=
    if Nat.ltb i (length figure_captions - 1)
    then Qmin (y0 caption_bbox) (y0 (cap_bbox (nth (i + 1) figure_captions cap)) - 10)
    else y0 caption_bbox in
  let safe_top := Qmax 0 (Qmin safe_top page_h) in
  let bottom := Qmax 0 (Qmin bottom page_h) in
  let available := bottom - safe_top in
  let is_tight := Qltb available 150 in
  let top := if is_tight then safe_top
             else Qmax safe_top (y0 caption_bbox - page_h * 0.6) in
  let top := if Qltb (bottom - top) 30
             then Qmax safe_top (y0 caption_bbox - 200) else top in
  let '(left, right) := _get_horizontal_bounds cap figure_captions page_w in
  {| safe_top := safe_top; bottom := bottom; is_tight := is_tight;
     top := top; left := left; right := right |}.





(** [min(f(r) for r in images)] and [max(...)], for a non-empty list. *)
Definition min_of (f : Rect -> Q) (images : list Rect) : Q :=
  match images with
  | r :: rest => fold_left (fun m r' => Qmin m (f r')) rest (f r)
  | [] => 0
  end.

Definition max_of (f : Rect -> Q) (images : list Rect) : Q :=
  match images with
  | r :: rest => fold_left (fun m r' => Qmax m (f r')) rest (f r)
  | [] => 0
  end.

(** The PyMuPDF rectangle operations the extractor calls are taken as
    given: [bbox.intersects(rect)], [rect.width] and [rect.height]. *)
Section Locator.
Variable intersects : Rect -> Rect -> bool.
Variable rect_width rect_height : Rect -> Q.

Definition _find_images_in_rect (page : Page) (rect : Rect) (left right : Q)
    : list Rect :=
  List.filter
    (fun bbox =>
       intersects bbox rect
       && (let cy := (y0 bbox + y1 bbox) / 2 in
           let cx := (x0 bbox + x1 bbox) / 2 in
           Qle_bool (y0 rect) cy && Qle_bool cy (y1 rect)
           && Qle_bool left cx && Qle_bool cx right))
    (page_images page).

(** The top of the search after the one re-search for a tall figure,
    with the images found. *)
Definition expand_search (page : Page) (rg : Region) : Q * list Rect :=
  let images :=
    _find_images_in_rect page
      (mkRect (left rg) (top rg) (right rg) (bottom rg)) (left rg) (right rg) in
  match images with
  | _ :: _ =>
      let min_top := min_of y0 images in
      if Qltb min_top (top rg - 20) then
        let new_top := Qmax (safe_top rg) (min_top - 10) in
        if Qltb new_top (top rg - 20) then
          (new_top,
           _find_images_in_rect page
             (mkRect (left rg) new_top (right rg) (bottom rg))
             (left rg) (right rg))
        else (top rg, images)
      else (top rg, images)
  | [] => (top rg, images)
  end.

(** The rectangle rendered for caption [i], when the loop body reaches
    the rendering step. *)
Definition figure_rect (page : Page) (figure_captions : list Caption)
    (i : nat) (cap : Caption) : option Rect :=
  let rg := search_region (page_h page) (page_w page) figure_captions i cap in
  let '(_, images) := expand_search page rg in
  match images with
  | [] => None
  | _ :: _ =>
      let bbox := (min_of y0 images, max_of y1 images,
                   min_of x0 images, max_of x1 images) in
      let '(b0, b1, b2, b3) := bbox in
      let fig_rect :=
        mkRect (Qmax 0 (b2 - 10)) (Qmax (safe_top rg) (b0 - 10))
               (Qmin (page_w page) (b3 + 10))
               (Qmin (page_h page) (y1 (cap_bbox cap) + 3)) in
      let '(min_h, min_w) := if is_tight rg then (30, 60) else (40, 80) in
      if Qltb (rect_height fig_rect) min_h
         || Qltb (rect_width fig_rect) min_w
         || Qltb (page_h page * 0.85) (rect_height fig_rect)
      then None
      else Some fig_rect
  end.

(** One iteration of the loop over [enumerate(figure_captions)]: the
    figure appended, if any. *)
Definition caption_figure (page_num : nat) (page : Page)
    (figure_captions : list Caption) (i : nat) (cap : Caption)
    : option Figure :=
  match figure_rect page figure_captions i cap with
  | None => None
  | Some fig_rect =>
      match get_pixmap page fig_rect with
      | Some pix =>
          Some {| page := page_num;
                  width := pix_width pix;
                  height := pix_height pix;
                  bytes := pix_png pix;
                  caption := cap_text cap;
                  caption_prefix := cap_prefix cap;
                  format := "png" |}
      | None => None
      end
  end.

(** [enumerate(l)] *)
Definition enumerate {A : Type} (l : list A) : list (nat * A) :=
  combine (seq 0 (length l)) l.

(** The figures one page contributes. *)
Definition page_figures (page_num : nat) (page : Page) : list Figure :=
  let figure_captions := page_captions (page_blocks page) in
  omap (fun '(i, cap) => caption_figure page_num page figure_captions i cap)
       (enumerate figure_captions).

Definition extract_figures (doc : list Page) : list Figure :=
  let figures :=
    flat_map (fun '(page_num, page) => page_figures page_num page)
             (enumerate doc) in
  List.filter (fun f => Z.ltb 300 (width f) && Z.ltb 150 (height f)) figures.

End Locator.

(** *** Selection *)

(** The condition of the comprehension [valid]. *)
Definition qualifies (min_width min_height : Z) (f : Figure) : bool :=
  Z.leb min_width (width f) && Z.leb min_height (height f).

Definition select_figures_simple (figures : list Figure)
    (min_width min_height : Z) : option Figure * option Figure :=
  let valid := List.filter (qualifies min_width min_height) figures in
  let teaser := if Nat.leb 1 (length valid) then nth_error valid 0 else None in
  let architecture := if Nat.leb 2 (length valid) then nth_error valid 1 else None in
  (teaser, architecture).

(** The keyword defaults of [select_figures_simple]. *)
Definition default_min_width : Z := 400.
Definition default_min_height : Z := 200.

Definition select_figures_vlm (figures : list Figure)
    : option Figure * option Figure :=
  select_figures_simple figures default_min_width default_min_height.

(** *** The rate-limited download *)

(** The state of one Python process: the wall clock as the process reads
    it ([time.time()]) and the module global [_last_pdf_download]. *)
Record Proc : Type := mkProc {
  now : Q;
  _last_pdf_download : Q
}.

(** A freshly started interpreter: the global is initialised to 0. *)
Definition start_proc (t : Q) : Proc := {| now := t; _last_pdf_download := 0 |}.

(** [time.sleep(d)] and the passage of time during a blocking call. *)
Definition sleep (d : Q) (p : Proc) : Proc :=
  {| now := now p + d; _last_pdf_download := _last_pdf_download p |}.

(** What the network and the file system do for one download:
    [requests.get] takes [get_duration] seconds and gives [get_reply];
    writing the file raises an [OSError] with message [write_error], if
    any. *)
Record Download : Type := mkDownload {
  get_duration : Q;
  get_reply : requests.reply;
  write_error : option string
}.

(** [download_pdf], with [PDF_MIN_INTERVAL] as a parameter.  Besides the
    new process state and the outcome (the exception raised, or the PDF
    bytes written), the result gives the time at which the GET request
    was issued. *)
Definition download_pdf (PDF_MIN_INTERVAL : Q) (net : Download) (p : Proc)
    : Proc * Q * (requests.exn + list Byte.byte) :=
  let elapsed := now p - _last_pdf_download p in
  let p := if Qltb elapsed PDF_MIN_INTERVAL
           then sleep (PDF_MIN_INTERVAL - elapsed) p else p in
  let issued := now p in
  let p := sleep (get_duration net) p in
  match get_reply net with
  | requests.NotReplied e => (p, issued, inl e)
  | requests.Replied response =>
      match requests.raise_for_status response with
      | Some e => (p, issued, inl e)
      | None =>
          let p := {| now := now p; _last_pdf_download := now p |} in
          match write_error net with
          | Some msg => (p, issued, inl (requests.Exception msg))
          | None => (p, issued, inr (requests.content response))
          end
      end
  end.

End extract_figures.

(** ** [pipeline/figure_extraction/process_figures.py] *)

Module process_figures.
Local Open Scope Z_scope.

(** What Pillow did to obtain the pixels of an image, as a term. *)
Inductive Pixels : Type :=
| Decoded (img_bytes : list Byte.byte)       (* Image.open(io.BytesIO(b)) *)
| Resized (w h : Z) (src : Pixels)           (* src.resize((w, h), LANCZOS) *)
| Converted (mode : string) (src : Pixels)   (* src.convert(mode) *)
| PastedOnWhite (src : Pixels).              (* white RGB canvas of src's size,
                                                src pasted with its last band
                                                as the mask *)

Record Image : Type := mkImage {
  width : Z;
  height : Z;
  mode : string;
  pixels : Pixels
}.

Definition resize (img : Image) (w h : Z) : Image :=
  {| width := w; height := h; mode := mode img;
     pixels := Resized w h (pixels img) |}.

Definition convert (img : Image) (m : string) : Image :=
  {| width := width img; height := height img; mode := m;
     pixels := Converted m (pixels img) |}.

(** [background = Image.new('RGB', img.size, (255, 255, 255));
    background.paste(img, mask=img.split()[-1])] *)
Definition paste_on_white (img : Image) : Image :=
  {| width := width img; height := height img; mode := "RGB";
     pixels := PastedOnWhite (pixels img) |}.

(** [int(x)] on a float: truncation towards zero. *)
Definition int (x : Q) : Z := Z.quot (Qnum x) (Zpos (Qden x)).

Definition mode_in (m : string) (ms : list string) : bool :=
  existsb (String.eqb m) ms.

(** The arguments of [img.save(output, format='WEBP', quality=..., method=6)]. *)
Record Encoded : Type := mkEncoded {
  saved : Image;
  save_format : string;
  save_quality : Z;
  save_method : Z
}.

(** The body of [downsample_image] once the image is open, in its three
    steps: the resize, the mode normalisation, the save. *)
Definition scale_down (img : Image) (max_width : Z) : Image :=
  if Z.ltb max_width (width img) then
    let ratio := (inject_Z max_width / inject_Z (width img))%Q in
    let new_height := int (inject_Z (height img) * ratio)%Q in
    resize img max_width new_height
  else img.

Definition normalize_mode (img : Image) : Image :=
  if negb (mode_in (mode img) ["RGB"; "L"]%string) then
    if String.eqb (mode img) "CMYK" then convert img "RGB"
    else if mode_in (mode img) ["RGBA"; "LA"]%string then paste_on_white img
    else if String.eqb (mode img) "P" then convert img "RGB"
    else convert img "RGB"
  else img.

Definition downsample (img : Image) (max_width quality : Z) : Encoded :=
  let img := scale_down img max_width in
  let img := normalize_mode img in
  {| saved := img; save_format := "WEBP"; save_quality := quality;
     save_method := 6 |}.

(** [downsample_image]; [Image_open] is Pillow's decoder, which raises
    (with the message given) on bytes it cannot identify. *)
Definition downsample_image (Image_open : list Byte.byte -> string + Image)
    (img_bytes : list Byte.byte) (max_width quality : Z)
    : requests.exn + Encoded :=
  match Image_open img_bytes with
  | inl msg => inl (requests.Exception msg)
  | inr img => inr (downsample img max_width quality)
  end.

(** The dictionary [process_and_upload_figure] returns (keys only). *)
Record Uploaded : Type := mkUploaded {
  r2_key : string;
  thumb_key : string
}.

(** [process_and_upload_figure]; [put_full] and [put_thumb] are the
    exceptions the two [upload_to_r2] calls raise, if any. *)
Definition process_and_upload_figure
    (Image_open : list Byte.byte -> string + Image)
    (put_full put_thumb : option requests.exn)
    (figure_bytes : list Byte.byte) (paper_id kind : string)
    (full_size thumb_size : Z) : requests.exn + Uploaded :=
  match downsample_image Image_open figure_bytes full_size 80 with
  | inl e => inl e
  | inr full_image =>
      match downsample_image Image_open figure_bytes thumb_size 75 with
      | inl e => inl e
      | inr thumb_image =>
          let r2_key := ("figures/" ++ paper_id ++ "/" ++ kind ++ ".webp")%string in
          let thumb_key :=
            ("figures/" ++ paper_id ++ "/" ++ kind ++ "_thumb.webp")%string in
          match put_full with
          | Some e => inl e
          | None =>
              match put_thumb with
              | Some e => inl e
              | None => inr {| r2_key := r2_key; thumb_key := thumb_key |}
              end
          end
      end
  end.

End process_figures.

(** ** [pipeline/d1_client.py] *)

Module d1_client.
Import requests.

(** [D1Client._execute]: every [RequestException] raised while posting,
    [HTTPError] included, is replaced by a plain [Exception]. *)
Definition _execute (post : reply) : exn + unit :=
  let body : exn + unit :=
    match post with
    | NotReplied e => inl e
    | Replied response =>
        match raise_for_status response with
        | Some e => inl e
        | None =>
            if json_success response then inr tt
            else inl (Exception "D1 error")
        end
    end in
  match body with
  | inl e =>
      if is_RequestException e
      then inl (Exception ("D1 API failed: " ++ str_exn e))
      else inl e
  | inr v => inr v
  end.

Definition insert_figure (post : reply) : exn + unit := _execute post.

End d1_client.

(** ** [pipeline/figure_extraction/extract_figures_batch.py] *)

Module extract_figures_batch.
Import requests.
Import extract_figures.

(** [class ServiceUnavailableError(RuntimeError)], with its message. *)
Inductive ServiceUnavailableError : Type :=
| ServiceUnavailable (msg : string).

(** The result dictionary of [process_paper]. *)
Record result : Type := mkResult {
  paper_id : string;
  success : bool;
  figures_uploaded : Z;
  error : option string
}.

(** State shared by all processes of a run: the ledger file
    [FAILED_EXTRACTIONS_FILE] ([None] while it does not exist, else its
    lines without the newline), and two records kept for the proofs: the
    times at which GET requests went out to arXiv, and the identifiers
    handed to [process_paper]. *)
Record Shared : Type := mkShared {
  failed_file : option (list string);
  arxiv_log : list Q;
  dispatched : list string
}.

Definition strip_line (line : string) : string :=
  string_of_list_ascii (text.strip (list_ascii_of_string line)).

Definition load_failed_extractions (file : option (list string)) : gset string :=
  match file with
  | None => ∅
  | Some lines =>
      list_to_set
        (List.filter (fun l => negb (String.eqb l "")) (map strip_line lines))
  end.

Definition mark_failed_extraction (paper_id : string) (sh : Shared) : Shared :=
  {| failed_file := Some (default [] (failed_file sh) ++ [paper_id]);
     arxiv_log := arxiv_log sh;
     dispatched := dispatched sh |}.

(** What the outside world does while one document is processed. *)
Record Publish : Type := mkPublish {
  Image_open : list Byte.byte -> string + process_figures.Image;
  put_full : option exn;
  put_thumb : option exn;
  d1_post : reply
}.

(** Operations on local files (parsing the PDF, decoding an image,
    deleting the PDF) raise exceptions that are not [RequestException]s;
    they are given by their message.  Remote calls may raise anything. *)
Record DocWorld : Type := mkDocWorld {
  download : Download;
  extracted : string + list Figure;  (* what [extract_figures(pdf_path)] does *)
  teaser_publish : Publish;
  architecture_publish : Publish;
  unlink_error : option string;      (* what [pdf_path.unlink()] raises *)
  work_duration : Q                  (* time spent after the download *)
}.

(** *** The [try] block: a state-and-exception monad *)

Definition St : Type := Proc * Shared * result.
Definition M (A : Type) : Type := St -> St * (exn + A).

Definition ret {A} (a : A) : M A := fun s => (s, inr a).
Definition raise {A} (e : exn) : M A := fun s => (s, inl e).
Definition bind {A B} (m : M A) (k : A -> M B) : M B :=
  fun s => match m s with
           | (s', inr a) => k a s'
           | (s', inl e) => (s', inl e)
           end.

Notation "x <- m ;; k" := (bind m (fun x => k))
  (at level 100, m at next level, right associativity).
Notation "m ;;; k" := (bind m (fun _ => k))
  (at level 100, right associativity).

Definition call {A} (r : exn + A) : M A :=
  match r with inl e => raise e | inr a => ret a end.
Definition local_call {A} (r : string + A) : M A :=
  match r with inl msg => raise (Exception msg) | inr a => ret a end.
Definition may_raise (e : option string) : M unit :=
  match e with Some msg => raise (Exception msg) | None => ret tt end.
Definition on_shared (f : Shared -> Shared) : M unit :=
  fun '(p, sh, r) => ((p, f sh, r), inr tt).
Definition on_result (f : result -> result) : M unit :=
  fun '(p, sh, r) => ((p, sh, f r), inr tt).

Definition set_error (msg : string) (r : result) : result :=
  {| paper_id := paper_id r; success := success r;
     figures_uploaded := figures_uploaded r; error := Some msg |}.
Definition set_success (r : result) : result :=
  {| paper_id := paper_id r; success := true;
     figures_uploaded := figures_uploaded r; error := error r |}.
Definition count_upload (r : result) : result :=
  {| paper_id := paper_id r; success := success r;
     figures_uploaded := figures_uploaded r + 1; error := error r |}.

(** The test of the first handler:
    [e.response is not None and e.response.status_code == 503], for an
    [HTTPError]. *)
Definition is_503 (e : exn) : bool :=
  match e with
  | HTTPError (Some status_code) _ => Z.eqb status_code 503
  | _ => false
  end.

(** The call [download_pdf(paper_id)]. *)
Definition do_download (cfg : config.t) (w : DocWorld) : M (list Byte.byte) :=
  fun '(p, sh, r) =>
    let '(p', issued, out) :=
      download_pdf (config.ARXIV_RATE_LIMIT cfg) (download w) p in
    let sh' := {| failed_file := failed_file sh;
                  arxiv_log := arxiv_log sh ++ [issued];
                  dispatched := dispatched sh |} in
    match out with
    | inl e => ((p', sh', r), inl e)
    | inr pdf => ((sleep (work_duration w) p', sh', r), inr pdf)
    end.

(** Transcode, upload and register one selected figure. *)
Definition publish (cfg : config.t) (pub : Publish) (fig : Figure)
    (paper_id kind : string) : M unit :=
  _ <- call (process_figures.process_and_upload_figure
               (Image_open pub) (put_full pub) (put_thumb pub)
               (bytes fig) paper_id kind
               (config.FIGURE_FULL_SIZE cfg) (config.FIGURE_THUMB_SIZE cfg)) ;;
  call (d1_client.insert_figure (d1_post pub)) ;;;
  on_result count_upload.

(** [if x: ...] on an optional figure (a figure dictionary is never
    empty, so it is true exactly when it is not [None]). *)
Definition when_some (x : option Figure) (body : Figure -> M unit) : M unit :=
  match x with Some fig => body fig | None => ret tt end.

Definition try_block (cfg : config.t) (paper_id : string) (w : DocWorld) : M unit :=
  _ <- do_download cfg w ;;
  figures <- local_call (extracted w) ;;
  let '(teaser, architecture) :=
    select_figures_simple figures
      (config.FIGURE_MIN_WIDTH cfg) (config.FIGURE_MIN_HEIGHT cfg) in
  match teaser, architecture with
  | None, None =>
      on_shared (mark_failed_extraction paper_id) ;;;
      may_raise (unlink_error w) ;;;
      on_result (set_error "No figures")
  | _, _ =>
      when_some teaser
        (fun fig => publish cfg (teaser_publish w) fig paper_id "teaser") ;;;
      when_some architecture
        (fun fig => publish cfg (architecture_publish w) fig paper_id "architecture") ;;;
      may_raise (unlink_error w) ;;;
      on_result set_success
  end.

(** The result dictionary as [process_paper] creates it. *)
Definition new_result (paper_id : string) : result :=
  {| paper_id := paper_id; success := false; figures_uploaded := 0;
     error := None |}.

(** [process_paper]: the worker function.  It returns the result
    dictionary or raises [ServiceUnavailableError]. *)
Definition process_paper (cfg : config.t) (paper_id : string) (w : DocWorld)
    (p : Proc) (sh : Shared) : Proc * Shared * (ServiceUnavailableError + result) :=
  let sh := {| failed_file := failed_file sh; arxiv_log := arxiv_log sh;
               dispatched := dispatched sh ++ [paper_id] |} in
  let result := new_result paper_id in
  match try_block cfg paper_id w (p, sh, result) with
  | ((p, sh, result), inr _) => (p, sh, inr result)
  | ((p, sh, result), inl e) =>
      match e with
      | HTTPError _ _ =>                      (* except requests.HTTPError *)
          if is_503 e then
            (p, sh, inl (ServiceUnavailable "Received HTTP 503 from arXiv/R2"))
          else
            (p, mark_failed_extraction paper_id sh,
             inr (set_error (str_exn e) result))
      | _ =>                                  (* except Exception *)
          (p, mark_failed_extraction paper_id sh,
           inr (set_error (str_exn e) result))
      end
  end.

(** *** [main] *)

(** How a run ends. *)
Inductive Exit : Type :=
| Completed (results : list result)   (* the summary is printed *)
| NothingToDo                         (* "No papers to process" *)
| SystemExit (msg : string)           (* raised by [collect] *)
| Uncaught (e : exn).                 (* an exception leaves [main] *)


(** [l[:n]], negative [n] included. *)
Definition slice_to {A} (n : Z) (l : list A) : list A :=
  if Z.leb 0 n then firstn (Z.to_nat n) l
  else firstn (length l - Z.to_nat (- n)) l.

(** [main] up to [worker_args]: the worklist, or the exception that the
    catalog query raises.  [catalog] is what
    [d1.get_papers_needing_figures] does. *)
Definition worklist (catalog : exn + list string) (file : option (list string))
    (max_count : Z) (paper_id : option string) : exn + list string :=
  match paper_id with
  | Some (String c s) => inr [String c s]
  | _ =>
      match catalog with
      | inl e => inl e
      | inr paper_ids_all =>
          let failed_set := load_failed_extractions file in
          inr (slice_to max_count
                 (List.filter (fun p => negb (bool_decide (p ∈ failed_set)))
                              paper_ids_all))
      end
  end.

(** The nested function [collect].  The iterable is given by the
    worklist still to come and the function that produces the next item
    from the state [S] of the processes that run the workers. *)
Fixpoint collect {S : Type}
    (next : string -> S -> Shared -> S * Shared * (ServiceUnavailableError + result))
    (iterable : list string) (s : S) (sh : Shared) (results_local : list result)
    : S * Shared * (string + list result) :=
  match iterable with
  | [] => (s, sh, inr results_local)
  | arg :: rest =>
      match next arg s sh with
      | (s', sh', inr item) => collect next rest s' sh' (results_local ++ [item])
      | (s', sh', inl (ServiceUnavailable msg)) => (s', sh', inl msg)
      end
  end.

(** [pool.imap(process_paper, worker_args)].  The documents are taken in
    order, each by the worker process that is free first; the effects on
    the shared state are recorded in that order, and the documents behind
    one that raises are abandoned when [collect] terminates the pool. *)
Fixpoint earliest (ws : list Proc) : nat :=
  match ws with
  | [] => O
  | w :: ws' =>
      match ws' with
      | [] => O
      | _ :: _ =>
          let k := earliest ws' in
          if Qle_bool (now w) (now (nth k ws' w)) then O else S k
      end
  end.

Definition pool_next (cfg : config.t) (world : string -> DocWorld)
    (arg : string) (ws : list Proc) (sh : Shared)
    : list Proc * Shared * (ServiceUnavailableError + result) :=
  let k := earliest ws in
  let '(p', sh', out) :=
    process_paper cfg arg (world arg) (nth k ws (start_proc 0)) sh in
  (<[k := p']> ws, sh', out).

Definition sequential_next (cfg : config.t) (world : string -> DocWorld)
    (arg : string) (p : Proc) (sh : Shared)
    : Proc * Shared * (ServiceUnavailableError + result) :=
  process_paper cfg arg (world arg) p sh.

Record Run : Type := mkRun {
  exit : Exit;
  shared : Shared;
  pool : option (list Proc);       (* the worker processes, in pool mode *)
  terminated_by_collect : bool     (* [collect] called [pool.terminate()] *)
}.

(** [main]: [catalog] and [world] are the outside world, [file] the
    ledger file when the run starts, and [me] the process that runs
    [main].  A pool forks [workers] copies of it. *)
Definition main (cfg : config.t) (catalog : exn + list string)
    (world : string -> DocWorld) (file : option (list string)) (me : Proc)
    (max_count workers : Z) (paper_id : option string) : Run :=
  let sh := {| failed_file := file; arxiv_log := []; dispatched := [] |} in
  match worklist catalog file max_count paper_id with
  | inl e => {| exit := Uncaught e; shared := sh; pool := None;
                terminated_by_collect := false |}
  | inr [] => {| exit := NothingToDo; shared := sh; pool := None;
                 terminated_by_collect := false |}
  | inr paper_ids =>
      if Z.ltb 1 workers then
        let pool := replicate (Z.to_nat workers) me in
        match collect (pool_next cfg world) paper_ids pool sh [] with
        | (ws, sh', inr results) =>
            {| exit := Completed results; shared := sh'; pool := Some ws;
               terminated_by_collect := false |}
        | (ws, sh', inl msg) =>
            {| exit := SystemExit msg; shared := sh'; pool := Some ws;
               terminated_by_collect := true |}
        end
      else
        match collect (sequential_next cfg world) paper_ids me sh [] with
        | (_, sh', inr results) =>
            {| exit := Completed results; shared := sh'; pool := None;
               terminated_by_collect := false |}
        | (_, sh', inl msg) =>
            {| exit := SystemExit msg; shared := sh'; pool := None;
               terminated_by_collect := false |}
        end
  end.

(** *** The summary that [main] prints *)

(** [successful], [failed] and [total_figures] of a list of results. *)
Definition successful (results : list result) : list result :=
  List.filter success results.

Definition failed (results : list result) : list result :=
  List.filter (fun r => negb (success r)) results.

Definition total_figures (results : list result) : Z :=
  fold_left Z.add (map figures_uploaded results) 0%Z.

End extract_figures_batch.

(** ** [pipeline/figure_extraction/sync_r2_to_d1_figures.py]: reading the
    object keys back *)

Module sync_r2_to_d1_figures.

(** [s.startswith(prefix)] *)
Definition startswith (s prefix : string) : bool := String.prefix prefix s.

(** [s.count(c)] for a one-character [c] *)
Fixpoint count (c : ascii) (s : string) : nat :=
  match s with
  | EmptyString => O
  | String a s' => (if Ascii.eqb a c then 1 else 0) + count c s'
  end.

(** [s.split(c)] for a one-character [c] *)
Fixpoint split (c : ascii) (s : string) : list string :=
  match s with
  | EmptyString => [EmptyString]
  | String a s' =>
      if Ascii.eqb a c then EmptyString :: split c s'
      else match split c s' with
           | h :: t => String a h :: t
           | [] => [String a EmptyString]
           end
  end.

(** [s.endswith(suffix)] *)
Definition endswith (s suffix : string) : bool :=
  Nat.leb (String.length suffix) (String.length s)
  && String.eqb (substring (String.length s - String.length suffix)
                           (String.length suffix) s) suffix.

(** [s[:-n]] for a positive [n] *)
Definition drop_last (n : nat) (s : string) : string :=
  substring 0 (String.length s - n) s.

(** [parse_figure_key]: [(paper_id, kind, is_thumb)], or [None]. *)
Definition parse_figure_key (key : string) : option (string * string * bool) :=
  if negb (startswith key "figures/") || negb (Nat.eqb (count "/" key) 2) then None
  else
    match split "/" key with
    | [_; paper_id; filename] =>
        if endswith filename "_thumb.webp"
        then Some (paper_id, drop_last 11 filename, true)
        else if endswith filename ".webp"
        then Some (paper_id, drop_last 5 filename, false)
        else None
    | _ => None   (* not reached: two separators give three parts *)
    end.

End sync_r2_to_d1_figures.

(** ** Readings of the specification's wording

    Two sentences of the specification describe behaviour in words that
    can be read as a definition of their own; they are written down here so
    that they can be compared with the code. *)

Module spec_words.
Import text re extract_figures.
Local Open Scope Q_scope.

(** "Figure <integer>" or "Fig.<integer>" or "Fig <integer>", at the
    start, leading white space allowed: a blank in the wording is read as
    white space, and where the wording has none the integer follows at
    once. *)
Definition caption_pattern : regex :=
  Seq (Rep0 is_space)
    (Alt (Seq (Lit (of_string "Figure")) (Seq (Rep1 is_space) (Rep1 is_digit)))
       (Alt (Seq (Lit (of_string "Fig.")) (Rep1 is_digit))
            (Seq (Lit (of_string "Fig")) (Seq (Rep1 is_space) (Rep1 is_digit))))).

Definition is_caption (block_text : str) : bool :=
  match re_match caption_pattern block_text with
  | Some _ => true
  | None => false
  end.

(** "split at the midpoints between adjacent captions in that row (with a
    fixed gutter)": the midpoint of the gap between two neighbouring
    caption boxes, and the midpoint between their centres; a bound
    derived from a midpoint [m] with gutter [g] is [m - g] or [m + g]. *)
Definition gap_midpoint (l r : Caption) : Q :=
  (x1 (cap_bbox l) + x0 (cap_bbox r)) / 2.
Definition center_midpoint (l r : Caption) : Q := (center l + center r) / 2.

Definition at_midpoint (l r : Caption) (g bound : Q) : Prop :=
  bound == gap_midpoint l r - g \/ bound == gap_midpoint l r + g
  \/ bound == center_midpoint l r - g \/ bound == center_midpoint l r + g.

End spec_words.

(** ** Concrete inputs used below *)

Module examples.
Import text extract_figures.
Local Open Scope Q_scope.

Definition block (x0 y0 x1 y1 : Q) (s : string) : Block :=
  {| block_rect := mkRect x0 y0 x1 y1; block_text := of_string s |}.

Definition page_of (h w : Q) (blocks : list Block) (images : list Rect) : Page :=
  {| page_h := h; page_w := w; page_blocks := blocks; page_images := images;
     get_pixmap := fun clip =>
       Some {| pix_width := 1000; pix_height := 500; pix_png := [] |} |}.



(** Two captions one above the other, each with an image above it. *)
Definition page_two : Page :=
  page_of 800 600
    [block 50 300 550 320 "Figure 1: Overview."; block 50 600 550 620 "Figure 2: Results."]
    [mkRect 100 100 500 290; mkRect 100 400 500 590].

(** Two captions side by side in the middle of a page. *)
Definition page_row : Page :=
  page_of 800 600
    [block 50 500 250 520 "Figure 1: Overview."; block 350 500 550 520 "Figure 2: Results."]
    [].

Definition captions_of (p : Page) : list Caption := page_captions (page_blocks p).

(** The caption at position [i] of a page's sorted captions. *)
Definition caption_at (p : Page) (i : nat) : Caption :=
  nth i (captions_of p) (mkCaption [] [] (mkRect 0 0 0 0) 0).

(** PyMuPDF's [Rect.intersects], [Rect.width] and [Rect.height] as its
    documentation gives them, for running the locator on these pages. *)
Definition rect_empty (r : Rect) : bool :=
  Qle_bool (x1 r) (x0 r) || Qle_bool (y1 r) (y0 r).
Definition intersects (a b : Rect) : bool :=
  negb (rect_empty a) && negb (rect_empty b)
  && Qltb (x0 a) (x1 b) && Qltb (x0 b) (x1 a)
  && Qltb (y0 a) (y1 b) && Qltb (y0 b) (y1 a).
Definition rect_width (r : Rect) : Q := Qmax 0 (x1 r - x0 r).
Definition rect_height (r : Rect) : Q := Qmax 0 (y1 r - y0 r).

(** An RGBA image of 1600 x 900 pixels. *)
Definition rgba_image : process_figures.Image :=
  {| process_figures.width := 1600; process_figures.height := 900;
     process_figures.mode := "RGBA";
     process_figures.pixels := process_figures.Decoded [] |}.

(** Replies of the remote services. *)
Definition reply_with (status : Z) (reason : string) : requests.reply :=
  requests.Replied
    {| requests.status_code := status; requests.reason := reason;
       requests.content := []; requests.json_success := true |}.
Definition ok : requests.reply := reply_with 200 "OK".
Definition unavailable : requests.reply :=
  reply_with 503 "503 Server Error: Service Unavailable".
Definition not_found : requests.reply := reply_with 404 "404 Client Error: Not Found".

Definition a_figure : Figure :=
  {| page := 0; width := 1000; height := 500; bytes := []; caption := [];
     caption_prefix := []; format := "png" |}.

Definition publish_with (d1 : requests.reply) : extract_figures_batch.Publish :=
  {| extract_figures_batch.Image_open := fun _ => inr rgba_image;
     extract_figures_batch.put_full := None;
     extract_figures_batch.put_thumb := None;
     extract_figures_batch.d1_post := d1 |}.

(** A document: the reply to the PDF request, the figures extracted, and
    the reply of the catalog.  The download takes one second, the rest of
    the work half a second. *)
Definition doc (pdf : requests.reply) (figures : list Figure) (d1 : requests.reply)
    : extract_figures_batch.DocWorld :=
  {| extract_figures_batch.download :=
       {| get_duration := 1; get_reply := pdf; write_error := None |};
     extract_figures_batch.extracted := inr figures;
     extract_figures_batch.teaser_publish := publish_with d1;
     extract_figures_batch.architecture_publish := publish_with d1;
     extract_figures_batch.unlink_error := None;
     extract_figures_batch.work_duration := 0.5 |}.

(** A world of four documents: "A" has one figure and everything works,
    "B" has no figure, for "C" arXiv answers 503, for "D" the catalog
    answers 503; any other document is not found. *)
Definition world (id : string) : extract_figures_batch.DocWorld :=
  if String.eqb id "A" then doc ok [a_figure] ok
  else if String.eqb id "B" then doc ok [] ok
  else if String.eqb id "C" then doc unavailable [] ok
  else if String.eqb id "D" then doc ok [a_figure] unavailable
  else doc not_found [] ok.

(** The process that runs [main], started at time 1000. *)
Definition me : Proc := start_proc 1000.

(** A block whose text begins with a caption of a two-digit number. *)
Definition caption_block : Block := block 50 300 550 320 "  Fig. 12b shows".

Definition caption_12 : Caption :=
  {| cap_text := of_string "Fig. 12b shows"; cap_prefix := of_string "Fig. 12";
     cap_bbox := mkRect 50 300 550 320; cap_y := 300 |}.

(** The figure [page_of] renders on page [n] for a caption. *)
Definition figure_on (n : nat) (text prefix : string) : Figure :=
  {| page := n; width := 1000; height := 500; bytes := [];
     caption := of_string text; caption_prefix := of_string prefix;
     format := "png" |}.

(** A document of two pages: [page_row], then [page_two]. *)
Definition two_pages : list Page := [page_row; page_two].

(** The results of the documents of [world]. *)
Definition result_A : extract_figures_batch.result :=
  {| extract_figures_batch.paper_id := "A"; extract_figures_batch.success := true;
     extract_figures_batch.figures_uploaded := 1;
     extract_figures_batch.error := None |}.
Definition result_B : extract_figures_batch.result :=
  {| extract_figures_batch.paper_id := "B"; extract_figures_batch.success := false;
     extract_figures_batch.figures_uploaded := 0;
     extract_figures_batch.error := Some "No figures"%string |}.
Definition result_D : extract_figures_batch.result :=
  {| extract_figures_batch.paper_id := "D"; extract_figures_batch.success := false;
     extract_figures_batch.figures_uploaded := 0;
     extract_figures_batch.error :=
       Some "D1 API failed: 503 Server Error: Service Unavailable"%string |}.

End examples.

(** ** Vocabulary of the statements *)

Section Vocabulary.
Import text re requests extract_figures extract_figures_batch.

(** The caption keywords, in any letter case. *)
Definition keyword (kw : str) : Prop :=
  map lower kw = of_string "figure"
  \/ map lower kw = of_string "fig."
  \/ map lower kw = of_string "fig".

(** What the steps before the end of the [try] block leave alone: the
    ledger, the record of dispatched documents and, in the result, the
    identifier, the success flag and the error. *)
Definition frame (s s' : St) : Prop :=
  failed_file s'.1.2 = failed_file s.1.2
  /\ dispatched s'.1.2 = dispatched s.1.2
  /\ paper_id s'.2 = paper_id s.2
  /\ success s'.2 = success s.2
  /\ error s'.2 = error s.2.

Definition framed {A} (m : M A) : Prop := forall s, frame s (m s).1.

(** A computation whose outcome (what it returns or raises) is the same
    in every state. *)
Definition oblivious {A} (m : M A) : Prop := forall s s', (m s).2 = (m s').2.

(** Postconditions for a computation started in [s]: [Q] when it
    returns, [E] when it raises. *)
Definition post {A} (m : M A) (s : St)
    (Q : St -> A -> Prop) (E : St -> exn -> Prop) : Prop :=
  match m s with
  | (s', inr a) => Q s' a
  | (s', inl e) => E s' e
  end.

(** The ledger is extended by the identifier, the rest of the frame is
    kept (but for the error). *)
Definition marked (id : string) (s s' : St) : Prop :=
  failed_file s'.1.2 = Some (default [] (failed_file s.1.2) ++ [id])
  /\ dispatched s'.1.2 = dispatched s.1.2
  /\ paper_id s'.2 = paper_id s.2
  /\ success s'.2 = success s.2.

(** The message of the one [ServiceUnavailableError] the code raises. *)
Definition msg_503 : string := "Received HTTP 503 from arXiv/R2".

(** Every line of the ledger [sh'] was in the ledger [sh] or is one of
    the identifiers [l]. *)
Definition ledger_grows (sh sh' : Shared) (l : list string) : Prop :=
  forall x, In x (default [] (failed_file sh')) ->
            In x (default [] (failed_file sh)) \/ In x l.

(** A producer of items that runs [process_paper] in some process. *)
Definition runs_worker (cfg : config.t) (world : string -> DocWorld) {S : Type}
    (next : string -> S -> Shared -> S * Shared * (ServiceUnavailableError + result))
    : Prop :=
  forall arg s sh, exists p,
    (next arg s sh).1.2 = (process_paper cfg arg (world arg) p sh).1.2
    /\ (next arg s sh).2 = (process_paper cfg arg (world arg) p sh).2.

(** Whether processing a document ends in the rate-limit signal: the
    [try] block raises an [HTTPError] whose response has status 503.
    (The processes' clocks and the shared files have no influence on
    this, see [process_paper_raises_iff].) *)
Definition rate_limited (cfg : config.t) (paper_id : string) (w : DocWorld) : bool :=
  match try_block cfg paper_id w
          (start_proc 0, mkShared None [] [], new_result paper_id) with
  | (_, inl e) => is_503 e
  | (_, inr _) => false
  end.

(** The state in which [process_paper] enters its [try] block. *)
Definition entry (id : string) (p : Proc) (sh : Shared) : St :=
  (p, mkShared (failed_file sh) (arxiv_log sh) (dispatched sh ++ [id]), new_result id).

(** A text that no character of the class begins. *)
Definition stops (cls : ascii -> bool) (s : str) : Prop :=
  match s with c :: _ => cls c = false | [] => True end.

(** The number of figures the selector hands on: the qualifying figures,
    two at most. *)
Definition selected (cfg : config.t) (figures : list Figure) : Z :=
  Z.min 2 (Z.of_nat (length (List.filter
     (qualifies (config.FIGURE_MIN_WIDTH cfg) (config.FIGURE_MIN_HEIGHT cfg))
     figures))).

(** Whether the PDF request of a document is answered with a good
    status. *)
Definition answered (w : DocWorld) : bool :=
  match get_reply (download w) with
  | Replied r => match raise_for_status r with None => true | Some _ => false end
  | NotReplied _ => false
  end.

(** The requests of a run, each with the document it was for. *)
Definition requests_of (sh : Shared) : list (string * Q) :=
  combine (dispatched sh) (arxiv_log sh).

(** Request [b] went out at least [interval] after the response to
    request [a] had arrived, if that response had a good status. *)
Definition spaced (interval : Q) (world : string -> DocWorld)
    (a b : string * Q) : Prop :=
  answered (world a.1) = true ->
  (a.2 + get_duration (download (world a.1)) + interval <= b.2)%Q.

(** What a process that works through documents one after the other
    keeps true of its requests. *)
Definition spacing_inv (cfg : config.t) (world : string -> DocWorld)
    (p : Proc) (sh : Shared) : Prop :=
  length (dispatched sh) = length (arxiv_log sh)
  /\ StronglySorted (spaced (config.ARXIV_RATE_LIMIT cfg) world) (requests_of sh)
  /\ Forall (fun a => answered (world a.1) = true ->
                      (a.2 + get_duration (download (world a.1))
                       <= _last_pdf_download p)%Q)
            (requests_of sh).

(** The candidates of a batch run: the catalog's answer without the
    identifiers of the ledger. *)
Definition candidates (file : option (list string)) (paper_ids_all : list string)
    : list string :=
  List.filter (fun p => negb (bool_decide (p ∈ load_failed_extractions file)))
              paper_ids_all.


(** The exceptions that the remote calls of a document raise: the PDF
    request, and the four uploads to the object store. *)
Definition remote_error (w : DocWorld) (e : exn) : Prop :=
  get_reply (download w) = NotReplied e
  \/ (exists r, get_reply (download w) = Replied r /\ raise_for_status r = Some e)
  \/ put_full (teaser_publish w) = Some e
  \/ put_thumb (teaser_publish w) = Some e
  \/ put_full (architecture_publish w) = Some e
  \/ put_thumb (architecture_publish w) = Some e.

End Vocabulary.

(** * Properties *)

(** ** Regular expressions: the matcher finds exactly the denoted prefixes *)

Section ReFacts.
Import text re.

Lemma lit_spec (w s rest : str) :
  In rest (lit w s) <-> exists m, s = m ++ rest /\ map lower m = map lower w.
Proof.
  revert s; induction w as [|a w IH]; intros s; simpl.
  - split.
    + intros [<-|[]]. exists []. auto.
    + intros (m & -> & Hm). destruct m; [now left | discriminate].
  - destruct s as [|c s].
    + split; [intros [] | intros (m & Hs & Hm)].
      destruct m; simpl in *; discriminate.
    + unfold ci_eqb. destruct (Ascii.eqb (lower a) (lower c)) eqn:E.
      * apply Ascii.eqb_eq in E. rewrite IH. split.
        -- intros (m & -> & Hm). exists (c :: m). simpl. split; [easy | congruence].
        -- intros (m & Hs & Hm). destruct m as [|c' m]; [discriminate|].
           simpl in *. injection Hs as -> ->. injection Hm as _ Hm. eauto.
      * apply Ascii.eqb_neq in E. split; [intros [] | intros (m & Hs & Hm)].
        destruct m as [|c' m]; [discriminate|]. simpl in *.
        injection Hs as -> ->. injection Hm as Hc _. congruence.
Qed.

Lemma rep0_spec (cls : ascii -> bool) (s rest : str) :
  In rest (rep0 cls s) <-> exists m, s = m ++ rest /\ forallb cls m = true.
Proof.
  induction s as [|c s IH] in rest |- *; simpl.
  - split.
    + intros [<-|[]]. exists []. auto.
    + intros (m & Hs & _). symmetry in Hs. apply app_eq_nil in Hs as [_ ->].
      now left.
  - destruct (cls c) eqn:E.
    + rewrite in_app_iff, IH. simpl. split.
      * intros [(m & -> & Hm) | [<- | []]].
        -- exists (c :: m). simpl. now rewrite E, Hm.
        -- exists []. auto.
      * intros (m & Hs & Hm). destruct m as [|c' m].
        -- right. left. now simpl in Hs.
        -- left. simpl in *. injection Hs as -> ->.
           apply andb_prop in Hm as [_ Hm]. eauto.
    + simpl. split.
      * intros [<- | []]. exists []. auto.
      * intros (m & Hs & Hm). destruct m as [|c' m]; [now left|].
        simpl in *. injection Hs as -> ->. rewrite E in Hm. discriminate.
Qed.

Lemma rep1_spec (cls : ascii -> bool) (s rest : str) :
  In rest (rep1 cls s)
  <-> exists m, s = m ++ rest /\ m <> [] /\ forallb cls m = true.
Proof.
  destruct s as [|c s]; simpl.
  - split; [intros [] | intros (m & Hs & Hne & _)].
    symmetry in Hs. apply app_eq_nil in Hs as [-> _]. congruence.
  - destruct (cls c) eqn:E.
    + rewrite rep0_spec. split.
      * intros (m & -> & Hm). exists (c :: m). simpl. rewrite E, Hm.
        repeat split; congruence.
      * intros (m & Hs & Hne & Hm). destruct m as [|c' m]; [congruence|].
        simpl in *. injection Hs as -> ->. apply andb_prop in Hm as [_ Hm]. eauto.
    + split; [intros [] | intros (m & Hs & Hne & Hm)].
      destruct m as [|c' m]; [congruence|]. simpl in *.
      injection Hs as -> ->. rewrite E in Hm. discriminate.
Qed.

Lemma run_spec (r : regex) (s rest : str) :
  In rest (run r s) <-> exists m, s = m ++ rest /\ matches r m.
Proof.
  induction r as [w|cls|cls|r IH|r1 IH1 r2 IH2|r1 IH1 r2 IH2] in s, rest |- *;
    simpl.
  - apply lit_spec.
  - apply rep0_spec.
  - apply rep1_spec.
  - rewrite in_app_iff, IH. simpl. split.
    + intros [(m & -> & Hm) | [<- | []]]; [eauto | exists []; auto].
    + intros (m & -> & [Hm | ->]); [left; eauto | right; now left].
  - rewrite in_app_iff, IH1, IH2. split.
    + intros [(m & -> & Hm) | (m & -> & Hm)]; eauto.
    + intros (m & -> & [Hm | Hm]); eauto.
  - rewrite in_flat_map. split.
    + intros (mid & H1 & H2). apply IH1 in H1 as (m1 & -> & Hm1).
      apply IH2 in H2 as (m2 & -> & Hm2).
      exists (m1 ++ m2). rewrite <- app_assoc. eauto 7.
    + intros (m & -> & m1 & m2 & -> & Hm1 & Hm2).
      exists (m2 ++ rest). split.
      * apply IH1. exists m1. rewrite <- app_assoc. auto.
      * apply IH2. eauto.
Qed.

(** [re.match] succeeds exactly when some prefix of the text is denoted. *)
Lemma re_match_Some_iff (r : regex) (s : str) :
  (exists g, re_match r s = Some g)
  <-> exists m rest, s = m ++ rest /\ matches r m.
Proof.
  unfold re_match. split.
  - intros [g Hg]. destruct (run r s) as [|rest l] eqn:E; [discriminate|].
    assert (In rest (run r s)) as H by (rewrite E; now left).
    apply run_spec in H as (m & -> & Hm). eauto.
  - intros (m & rest & -> & Hm).
    assert (In rest (run r (m ++ rest))) as H by (apply run_spec; eauto).
    destruct (run r (m ++ rest)); [destruct H | eauto].
Qed.

End ReFacts.

(** ** Caption recognition *)

Section CaptionFacts.
Import text re extract_figures.

Lemma lstrip_prefix (s : str) :
  exists ws, s = ws ++ lstrip s /\ forallb is_space ws = true.
Proof.
  induction s as [|c s (ws & IH & Hws)]; simpl.
  - exists []. auto.
  - destruct (is_space c) eqn:E.
    + exists (c :: ws). simpl. rewrite E, Hws. split; [congruence | reflexivity].
    + exists []. auto.
Qed.

Lemma lstrip_spaces_app (ws s : str) :
  forallb is_space ws = true -> lstrip (ws ++ s) = lstrip s.
Proof.
  induction ws as [|c ws IH]; simpl; [easy|].
  destruct (is_space c); [auto | discriminate].
Qed.

Lemma lstrip_keeps (a : str) (c : ascii) (b : str) :
  is_space c = false -> exists a', lstrip (a ++ c :: b) = a' ++ c :: b.
Proof.
  intros Hc. induction a as [|x a [a' IH]]; simpl.
  - rewrite Hc. exists []. reflexivity.
  - destruct (is_space x); [eauto | now exists (x :: a)].
Qed.

Lemma strip_frame (s : str) :
  exists ws ws', s = ws ++ strip s ++ ws' /\ forallb is_space ws = true.
Proof.
  destruct (lstrip_prefix s) as (ws & Hs & Hws).
  destruct (lstrip_prefix (rev (lstrip s))) as (ws' & Hr & _).
  exists ws, (rev ws'). split; [|assumption].
  unfold strip, rstrip. rewrite <- rev_app_distr, <- Hr, rev_involutive.
  assumption.
Qed.

(** Stripping keeps everything from the first to the last character that
    is not white space. *)
Lemma strip_keeps (ws x rest : str) (c d : ascii) (x1 x2 : str) :
  forallb is_space ws = true ->
  x = c :: x1 -> is_space c = false ->
  x = x2 ++ [d] -> is_space d = false ->
  exists rest', strip (ws ++ x ++ rest) = x ++ rest'.
Proof.
  intros Hws Hx1 Hc Hx2 Hd. unfold strip, rstrip.
  rewrite lstrip_spaces_app by assumption.
  assert (lstrip (x ++ rest) = x ++ rest) as ->.
  { rewrite Hx1. simpl. now rewrite Hc. }
  destruct (lstrip_keeps (rev rest) d (rev x2) Hd) as [a' Ha'].
  exists (rev a').
  rewrite rev_app_distr. rewrite Hx2 at 1. rewrite rev_app_distr. simpl.
  rewrite Ha', rev_app_distr. simpl.
  rewrite rev_involutive, Hx2. reflexivity.
Qed.

Lemma digit_not_space (c : ascii) : is_digit c = true -> is_space c = false.
Proof. destruct c as [[] [] [] [] [] [] [] []]; vm_compute; congruence. Qed.

Lemma lower_f_not_space (c : ascii) : lower c = "f"%char -> is_space c = false.
Proof. destruct c as [[] [] [] [] [] [] [] []]; vm_compute; congruence. Qed.

Lemma keyword_matches (kw : str) :
  keyword kw
  <-> matches (Alt (Lit (of_string "Figure"))
                   (Seq (Lit (of_string "Fig")) (Opt (Lit (of_string "."))))) kw.
Proof.
  unfold keyword. simpl matches. split.
  - intros [H | [H | H]].
    + left. exact H.
    + right. do 5 (destruct kw as [|? kw]; try discriminate).
      injection H as H1 H2 H3 H4.
      eexists [_; _; _], [_]. simpl. rewrite H1, H2, H3, H4.
      repeat split. left. reflexivity.
    + right. exists kw, []. rewrite app_nil_r. auto.
  - intros [H | (a & b & -> & Ha & [Hb | ->])].
    + left. exact H.
    + right. left. rewrite map_app, Ha, Hb. reflexivity.
    + right. right. rewrite app_nil_r. exact Ha.
Qed.

Lemma keyword_head (kw : str) :
  keyword kw -> exists c kw', kw = c :: kw' /\ is_space c = false.
Proof.
  intros H. destruct kw as [|c kw'].
  - destruct H as [H | [H | H]]; discriminate.
  - exists c, kw'. split; [reflexivity|]. apply lower_f_not_space.
    destruct H as [H | [H | H]]; now injection H.
Qed.

End CaptionFacts.

Section CaptionClaims.
Import text re extract_figures.

Lemma is_caption_true_iff (t : str) :
  is_caption t = true
  <-> exists m rest, strip t = m ++ rest /\ matches caption_pattern m.
Proof.
  unfold is_caption. rewrite <- re_match_Some_iff.
  destruct (re_match caption_pattern (strip t)); split; eauto; try discriminate.
  intros [g Hg]. discriminate.
Qed.

(** A block yields a caption exactly when its text is recognised. *)
Lemma block_caption_is_caption (b : Block) :
  (exists c, block_caption b = Some c) <-> is_caption (block_text b) = true.
Proof.
  unfold block_caption, is_caption.
  destruct (re_match caption_pattern (strip (block_text b))); split;
    eauto; try discriminate.
  intros [c Hc]. discriminate.
Qed.

(** C6 (as amended).  A block's text is recognised as a caption exactly
    when, after optional leading white space, it starts with "figure",
    "fig." or "fig" in any letter case, followed by at least one
    white-space character, followed by at least one digit.  White space
    between the keyword and the number is required. *)
Theorem is_caption_iff (t : str) :
  is_caption t = true
  <-> exists ws kw sep ds rest,
        t = ws ++ kw ++ sep ++ ds ++ rest
        /\ forallb is_space ws = true
        /\ keyword kw
        /\ sep <> [] /\ forallb is_space sep = true
        /\ ds <> [] /\ forallb is_digit ds = true.
Proof.
  rewrite is_caption_true_iff. split.
  - intros (m & rest & Hs & Hm).
    destruct Hm as (ws1 & m2 & -> & Hws1 & kw & m4 & -> & Hkw & sep & ds & ->
                    & [Hsep1 Hsep2] & [Hds1 Hds2]).
    apply keyword_matches in Hkw. simpl in Hws1.
    destruct (strip_frame t) as (ws & ws' & Ht & Hws).
    exists (ws ++ ws1), kw, sep, ds, (rest ++ ws').
    rewrite Ht, Hs, forallb_app, Hws, Hws1, <- !app_assoc. auto 10.
  - intros (ws & kw & sep & ds & rest & -> & Hws & Hkw & Hsep1 & Hsep2 & Hds1 & Hds2).
    destruct (keyword_head kw Hkw) as (c & kw' & Ekw & Hc).
    destruct (exists_last Hds1) as (ds' & d & Eds).
    assert (is_space d = false) as Hd.
    { apply digit_not_space. rewrite Eds, forallb_app in Hds2.
      apply andb_prop in Hds2 as [_ Hds2]. simpl in Hds2.
      now apply andb_prop in Hds2 as [Hds2 _]. }
    destruct (strip_keeps ws (kw ++ sep ++ ds) rest c d (kw' ++ sep ++ ds)
                (kw ++ sep ++ ds')) as [rest' E]; auto.
    + now rewrite Ekw.
    + rewrite Eds, <- !app_assoc. reflexivity.
    + exists (kw ++ sep ++ ds), rest'. split.
      * rewrite <- E, <- !app_assoc. reflexivity.
      * exists [], (kw ++ sep ++ ds). repeat split.
        exists kw, (sep ++ ds). repeat split.
        -- now apply keyword_matches.
        -- exists sep, ds. simpl. auto.
Qed.

(** C6 (as stated; it fails).  "Fig.1" is "Fig.<integer>" with no space
    between the prefix and the integer, and the wording counts it as a
    caption; the code does not recognise it.  "Fig. 1" is recognised. *)
Lemma caption_without_space_rejected :
  spec_words.is_caption (of_string "Fig.1") = true
  /\ is_caption (of_string "Fig.1") = false
  /\ is_caption (of_string "Fig. 1") = true.
Proof. vm_compute. auto. Qed.

End CaptionClaims.

(** ** The positional selector *)

Section SelectorClaims.
Import extract_figures.

Lemma select_figures_simple_nth (figures : list Figure) (min_width min_height : Z) :
  select_figures_simple figures min_width min_height
  = (nth_error (List.filter (qualifies min_width min_height) figures) 0,
     nth_error (List.filter (qualifies min_width min_height) figures) 1).
Proof.
  unfold select_figures_simple.
  destruct (List.filter _ figures) as [|a [|b l]]; reflexivity.
Qed.


(** The teaser is the first figure of the input that meets both minima,
    and both selected figures meet them. *)
Lemma select_figures_simple_teaser_first
    (figures : list Figure) (min_width min_height : Z) :
  fst (select_figures_simple figures min_width min_height)
  = List.find (qualifies min_width min_height) figures.
Proof.
  rewrite select_figures_simple_nth. simpl.
  induction figures as [|f figures IH]; simpl; [reflexivity|].
  destruct (qualifies min_width min_height f); [reflexivity | exact IH].
Qed.

Lemma select_figures_simple_qualify
    (figures : list Figure) (min_width min_height : Z) (f : Figure) :
  fst (select_figures_simple figures min_width min_height) = Some f
  \/ snd (select_figures_simple figures min_width min_height) = Some f ->
  In f figures /\ (min_width <= width f)%Z /\ (min_height <= height f)%Z.
Proof.
  rewrite select_figures_simple_nth. cbn [fst snd]. intros H.
  assert (In f (List.filter (qualifies min_width min_height) figures)) as Hin.
  { destruct H as [H | H]; eapply nth_error_In; exact H. }
  apply filter_In in Hin as [Hin Hq]. unfold qualifies in Hq.
  apply andb_prop in Hq as [Hw Hh]. split; [assumption|]. split; lia.
Qed.

(** C10.  [select_figures_vlm] returns, for every list of figures, the
    pair that [select_figures_simple] returns with its default minima
    (400 wide, 200 high): the first and the second figure of the list that
    are at least 400 wide and 200 high. *)
Theorem select_figures_vlm_is_simple (figures : list Figure) :
  select_figures_vlm figures = select_figures_simple figures 400 200
  /\ select_figures_vlm figures
     = (nth_error (List.filter (qualifies 400 200) figures) 0,
        nth_error (List.filter (qualifies 400 200) figures) 1).
Proof.
  unfold select_figures_vlm, default_min_width, default_min_height.
  split; [reflexivity | apply select_figures_simple_nth].
Qed.

End SelectorClaims.

(** ** The transcoder *)

Section TranscoderClaims.
Import process_figures.
Local Open Scope Z_scope.


Lemma mode_in_RGB_L (m : string) :
  mode_in m ["RGB"; "L"]%string = true <-> m = "RGB"%string \/ m = "L"%string.
Proof.
  unfold mode_in. simpl. rewrite orb_false_r, orb_true_iff, !String.eqb_eq. tauto.
Qed.

Lemma mode_in_RGBA_LA (m : string) :
  mode_in m ["RGBA"; "LA"]%string = true <-> m = "RGBA"%string \/ m = "LA"%string.
Proof.
  unfold mode_in. simpl. rewrite orb_false_r, orb_true_iff, !String.eqb_eq. tauto.
Qed.


Lemma normalize_mode_spec (img : Image) :
  width (normalize_mode img) = width img
  /\ height (normalize_mode img) = height img
  /\ (mode (normalize_mode img) = "RGB"%string
      \/ mode (normalize_mode img) = "L"%string)
  /\ (mode img = "RGBA"%string \/ mode img = "LA"%string ->
      normalize_mode img = paste_on_white img)
  /\ (mode img <> "RGB"%string -> mode img <> "L"%string ->
      mode (normalize_mode img) = "RGB"%string).
Proof.
  unfold normalize_mode.
  destruct (mode_in (mode img) ["RGB"; "L"]%string) eqn:E1; cbn [negb].
  - apply mode_in_RGB_L in E1. repeat split; try tauto.
    intros [E | E]; destruct E1 as [E1 | E1]; rewrite E in E1; discriminate.
  - destruct (String.eqb (mode img) "CMYK") eqn:E2.
    + apply String.eqb_eq in E2. cbn. repeat split; auto.
      intros [E | E]; rewrite E in E2; discriminate.
    + destruct (mode_in (mode img) ["RGBA"; "LA"]%string) eqn:E3.
      * cbn. repeat split; auto.
      * assert (~ (mode img = "RGBA"%string \/ mode img = "LA"%string)) as N.
        { rewrite <- mode_in_RGBA_LA, E3. discriminate. }
        destruct (String.eqb (mode img) "P"); cbn; repeat split; auto; tauto.
Qed.



End TranscoderClaims.

(** ** The stable sort *)

Section SortFacts.
Import extract_figures.
Context {A : Type} (key : A -> Q).

Lemma Qltb_lt (a b : Q) : Qltb a b = true <-> (a < b)%Q.
Proof.
  unfold Qltb. rewrite negb_true_iff, <- not_true_iff_false, Qle_bool_iff.
  split; [apply Qnot_le_lt | apply Qlt_not_le].
Qed.

Lemma Qltb_ge (a b : Q) : Qltb a b = false <-> (b <= a)%Q.
Proof. unfold Qltb. rewrite negb_false_iff. apply Qle_bool_iff. Qed.

(** Inserting [x] splits the list after its elements of smaller key. *)
Lemma insert_by_split (x : A) (l : list A) :
  exists before after,
    l = before ++ after
    /\ insert_by key x l = before ++ x :: after
    /\ Forall (fun h => (key h < key x)%Q) before
    /\ match after with h :: _ => (key x <= key h)%Q | [] => True end.
Proof.
  induction l as [|h t (before & after & Ht & Hi & Hb & Ha)]; simpl.
  - exists [], []. auto.
  - destruct (Qltb (key h) (key x)) eqn:E.
    + apply Qltb_lt in E. exists (h :: before), after. simpl.
      rewrite Ht at 1. rewrite Hi. auto.
    + apply Qltb_ge in E. exists [], (h :: t). auto.
Qed.

Lemma insert_by_perm (x : A) (l : list A) : Permutation (x :: l) (insert_by key x l).
Proof.
  destruct (insert_by_split x l) as (before & after & -> & -> & _).
  apply Permutation_middle.
Qed.

Lemma sort_by_perm (l : list A) : Permutation l (sort_by key l).
Proof.
  induction l as [|x l IH]; simpl; [constructor|].
  etransitivity; [apply perm_skip, IH | apply insert_by_perm].
Qed.

Lemma insert_by_sorted (x : A) (l : list A) :
  StronglySorted (key_le key) l -> StronglySorted (key_le key) (insert_by key x l).
Proof.
  induction 1 as [|h t Hs IH Hh]; simpl.
  - repeat constructor.
  - destruct (Qltb (key h) (key x)) eqn:E.
    + apply Qltb_lt in E. constructor; [assumption|].
      eapply Permutation_Forall; [apply insert_by_perm|].
      constructor; [unfold key_le; lra | assumption].
    + apply Qltb_ge in E. constructor; [now constructor|].
      constructor; [exact E|].
      eapply List.Forall_impl; [|exact Hh]. unfold key_le. intros; lra.
Qed.

Lemma sort_by_sorted (l : list A) : StronglySorted (key_le key) (sort_by key l).
Proof.
  induction l as [|x l IH]; simpl; [constructor | now apply insert_by_sorted].
Qed.

(** The first element sorts to the position after the elements of
    strictly smaller key; everything behind it has a key at least as
    large. *)
Lemma sort_by_head_split (x : A) (l : list A) :
  exists before after,
    Permutation l (before ++ after)
    /\ sort_by key (x :: l) = before ++ x :: after
    /\ Forall (fun h => (key h < key x)%Q) before
    /\ Forall (fun h => (key x <= key h)%Q) after
    /\ StronglySorted (key_le key) before /\ StronglySorted (key_le key) after.
Proof.
  simpl. destruct (insert_by_split x (sort_by key l))
    as (before & after & Hl & Hi & Hb & Ha).
  pose proof (sort_by_sorted l) as Hs. rewrite Hl in Hs.
  exists before, after. rewrite Hi, <- Hl.
  split; [apply sort_by_perm|]. split; [reflexivity|]. split; [assumption|].
  assert (StronglySorted (key_le key) before /\ StronglySorted (key_le key) after) as [S1 S2].
  { clear -Hs. induction before as [|b before IH]; simpl in *.
    - split; [constructor | assumption].
    - inversion Hs as [|? ? Hs' Hb]; subst. destruct (IH Hs') as [? ?].
      split; [|assumption]. constructor; [assumption|].
      apply Forall_app in Hb as [? _]. assumption. }
  split; [|auto].
  destruct after as [|h after]; [constructor|].
  constructor; [assumption|].
  inversion S2 as [|? ? _ Hh]; subst.
  eapply List.Forall_impl; [|exact Hh]. unfold key_le. intros; lra.
Qed.

End SortFacts.

(** ** Horizontal bounds *)

Section HorizontalBoundsClaims.
Import extract_figures.
Local Open Scope Q_scope.

Lemma rect_eqb_refl (r : Rect) : rect_eqb r r = true.
Proof.
  unfold rect_eqb. rewrite !andb_true_iff, !Qeq_bool_iff. repeat split; reflexivity.
Qed.

Lemma caption_eqb_refl (c : Caption) : caption_eqb c c = true.
Proof.
  unfold caption_eqb.
  rewrite !andb_true_iff, !bool_decide_eq_true, rect_eqb_refl, Qeq_bool_iff.
  repeat split; reflexivity.
Qed.

Lemma index_first (before after : list Caption) (x : Caption) :
  Forall (fun c => caption_eqb c x = false) before ->
  index (before ++ x :: after) x = length before.
Proof.
  induction 1 as [|c before Hc _ IH]; simpl.
  - now rewrite caption_eqb_refl.
  - now rewrite Hc, IH.
Qed.

Lemma same_row_not_eq (x c : Caption) : same_row x c = true -> caption_eqb c x = false.
Proof.
  unfold same_row. intros H. apply andb_prop in H as [_ H].
  now apply negb_true_iff in H.
Qed.

(** C5 (as amended).  The row-mates of a caption are the captions of the
    page that differ from it and whose top edge is less than 50 away
    from its own.
    - With no row-mates the bounds are the caption's box widened on both
      sides by [max(50, 0.3 * width)], the left one not below 0 and the
      right one not above the page width.
    - With row-mates, order the row by horizontal centre ([before]: the
      row-mates with a smaller centre, [after]: the others).  The left
      bound is the right edge of the nearest caption before it plus 20,
      or 0 when there is none; the right bound is the left edge of the
      nearest caption after it minus 20, or the page width when there is
      none. *)
Theorem horizontal_bounds_by_neighbour_edges
    (caption_info : Caption) (figure_captions : list Caption) (page_width : Q) :
  let box := cap_bbox caption_info in
  match List.filter (same_row caption_info) figure_captions with
  | [] =>
      _get_horizontal_bounds caption_info figure_captions page_width
      = (Qmax 0 (x0 box - Qmax 50 ((x1 box - x0 box) * 0.3)),
         Qmin page_width (x1 box + Qmax 50 ((x1 box - x0 box) * 0.3)))
  | mate :: mates =>
      exists before after,
        Permutation (mate :: mates) (before ++ after)
        /\ Forall (fun c => center c < center caption_info) before
        /\ Forall (fun c => center caption_info <= center c) after
        /\ StronglySorted (key_le center) before
        /\ StronglySorted (key_le center) after
        /\ _get_horizontal_bounds caption_info figure_captions page_width
           = (match rev before with
              | l :: _ => x1 (cap_bbox l) + 20
              | [] => 0
              end,
              match after with
              | r :: _ => x0 (cap_bbox r) - 20
              | [] => page_width
              end)
  end.
Proof.
  intros box. unfold _get_horizontal_bounds.
  destruct (List.filter (same_row caption_info) figure_captions)
    as [|mate mates] eqn:E; [reflexivity|].
  destruct (sort_by_head_split center caption_info (mate :: mates))
    as (before & after & Hp & Hs & Hb & Ha & S1 & S2).
  exists before, after. do 5 (split; [assumption|]).
  cbv zeta. rewrite Hs.
  assert (Forall (fun c => caption_eqb c caption_info = false) before) as Hne.
  { apply List.Forall_forall. intros c Hc. apply same_row_not_eq.
    assert (In c (mate :: mates)) as Hin.
    { eapply Permutation_in; [symmetry; exact Hp|]. apply in_or_app. now left. }
    rewrite <- E in Hin. now apply filter_In in Hin as [_ ?]. }
  rewrite (index_first before after caption_info Hne).
  f_equal.
  - destruct before as [|b before'] using rev_ind; [reflexivity|].
    rewrite rev_app_distr. simpl rev. simpl app at 1.
    rewrite length_app. simpl length.
    replace (Nat.ltb 0 (length before' + 1)) with true
      by (symmetry; apply Nat.ltb_lt; lia).
    replace (length before' + 1 - 1)%nat with (length before') by lia.
    rewrite <- app_assoc. simpl app.
    rewrite app_nth2 by lia. rewrite Nat.sub_diag. reflexivity.
  - rewrite length_app. simpl length. destruct after as [|r after'].
    + simpl length.
      replace (Nat.ltb (length before) (length before + 1 - 1)) with false
        by (symmetry; apply Nat.ltb_ge; lia).
      reflexivity.
    + simpl length.
      replace (Nat.ltb (length before) (length before + S (S (length after')) - 1))
        with true by (symmetry; apply Nat.ltb_lt; lia).
      rewrite app_nth2 by lia.
      replace (length before + 1 - length before)%nat with 1%nat by lia.
      reflexivity.
Qed.

End HorizontalBoundsClaims.

(** ** The vertical search region *)

(** Case analysis on every [Qmax] and [Qmin] in sight, then linear
    arithmetic. *)
Ltac qminmax :=
  unfold Qmax, Qmin, GenericMinMax.gmax, GenericMinMax.gmin in *;
  repeat (repeat match goal with
            | H : context [Qcompare _ _] |- _ => revert H
            end;
          match goal with
          | |- context [Qcompare ?a ?b] => destruct (Qcompare_spec a b)
          end);
  intros; try lra.

Section RegionFacts.
Import extract_figures.
Local Open Scope Q_scope.

Variables (page_h page_w : Q) (figure_captions : list Caption).




(** The search never starts above the safe top. *)
Lemma search_region_top (i : nat) (cap : Caption) :
  safe_top (search_region page_h page_w figure_captions i cap)
  <= top (search_region page_h page_w figure_captions i cap).
Proof.
  unfold search_region.
  destruct (_get_horizontal_bounds cap figure_captions page_w) as [l r].
  cbn [safe_top top].
  repeat match goal with |- context [if ?b then _ else _] => destruct b end;
    qminmax.
Qed.

(** Nor does the one re-search for a tall figure. *)
Lemma expand_search_top (intersects : Rect -> Rect -> bool) (page : Page) (rg : Region) :
  safe_top rg <= top rg ->
  safe_top rg <= fst (expand_search intersects page rg).
Proof.
  intros H. unfold expand_search.
  repeat match goal with
    | |- context [match ?l with [] => _ | _ :: _ => _ end] => destruct l
    | |- context [if ?b then _ else _] => destruct b
    end; cbn [fst]; qminmax.
Qed.

End RegionFacts.

Section LocatorClaims.
Import extract_figures.
Local Open Scope Q_scope.

Lemma length_omap_le {A B : Type} (f : A -> option B) (l : list A) :
  (length (omap f l) <= length l)%nat.
Proof.
  induction l as [|a l IH]; [simpl; lia|].
  change (omap f (a :: l))
    with (match f a with Some y => y :: omap f l | None => omap f l end).
  destruct (f a); simpl; lia.
Qed.

Lemma length_enumerate {A : Type} (l : list A) : length (enumerate l) = length l.
Proof. unfold enumerate. rewrite length_combine, length_seq. lia. Qed.

(** At most one figure per caption. *)
Lemma page_figures_count (intersects : Rect -> Rect -> bool)
    (rect_width rect_height : Rect -> Q) (page_num : nat) (page : Page) :
  (length (page_figures intersects rect_width rect_height page_num page)
   <= length (page_captions (page_blocks page)))%nat.
Proof.
  unfold page_figures. etransitivity; [apply length_omap_le|].
  now rewrite length_enumerate.
Qed.

(** The captions of a page are sorted by their top edge. *)
Lemma page_captions_y (blocks : list Block) :
  Forall (fun c => cap_y c = y0 (cap_bbox c)) (page_captions blocks).
Proof.
  unfold page_captions.
  eapply Permutation_Forall; [apply sort_by_perm|].
  apply List.Forall_forall. intros c Hc.
  apply list_elem_of_In, list_elem_of_omap in Hc as (b & _ & Hb).
  unfold block_caption in Hb.
  destruct (re.re_match caption_pattern (text.strip (block_text b)));
    [|discriminate].
  injection Hb as <-. reflexivity.
Qed.






End LocatorClaims.

Section HorizontalBoundsCounterexample.
Import extract_figures.
Local Open Scope Q_scope.

(** C5 (as stated; it fails).  On [page_row] two captions share a row:
    the left one spans 50..250, the right one 350..550, on a page 600
    wide.  The gap between them and their centres both have their
    midpoint at 300.  The code bounds the left caption's search by
    [(0, 330)] and the right one's by [(270, 600)]: the inner bounds are
    the neighbour's edge moved by 20 towards the neighbour's box, not a
    midpoint moved by the gutter, and the two ranges overlap. *)
Lemma horizontal_bounds_not_midpoints :
  let c0 := examples.caption_at examples.page_row 0 in
  let c1 := examples.caption_at examples.page_row 1 in
  let caps := examples.captions_of examples.page_row in
  caps = [c0; c1]
  /\ List.filter (same_row c0) caps = [c1]
  /\ List.filter (same_row c1) caps = [c0]
  /\ spec_words.gap_midpoint c0 c1 == 300
  /\ spec_words.center_midpoint c0 c1 == 300
  /\ _get_horizontal_bounds c0 caps 600 = (0, 330)
  /\ _get_horizontal_bounds c1 caps 600 = (270, 600)
  /\ ~ spec_words.at_midpoint c0 c1 20 330
  /\ ~ spec_words.at_midpoint c0 c1 20 270.
Proof.
  vm_compute. repeat split; try congruence; intros [H | [H | [H | H]]]; discriminate.
Qed.

End HorizontalBoundsCounterexample.

(** ** The worker function *)

Section TryBlockFacts.
Import requests extract_figures extract_figures_batch.

Lemma frame_refl (s : St) : frame s s.
Proof. repeat split. Qed.

Lemma frame_trans (s1 s2 s3 : St) : frame s1 s2 -> frame s2 s3 -> frame s1 s3.
Proof. unfold frame. intuition congruence. Qed.

Lemma bind_framed {A B} (m : M A) (k : A -> M B) :
  framed m -> (forall a, framed (k a)) -> framed (bind m k).
Proof.
  intros Hm Hk s. unfold bind. specialize (Hm s).
  destruct (m s) as [s1 [e | a]]; [exact Hm|].
  eapply frame_trans; [exact Hm | apply Hk].
Qed.

Lemma bind_oblivious {A B} (m : M A) (k : A -> M B) :
  oblivious m -> (forall a, oblivious (k a)) -> oblivious (bind m k).
Proof.
  intros Hm Hk s s'. unfold bind. specialize (Hm s s').
  destruct (m s) as [s1 [e | a]], (m s') as [s1' [e' | a']];
    simpl in *; try congruence.
  injection Hm as <-. apply Hk.
Qed.

Lemma ret_framed {A} (a : A) : framed (ret a).
Proof. intros s. apply frame_refl. Qed.
Lemma ret_oblivious {A} (a : A) : oblivious (ret a).
Proof. intros s s'. reflexivity. Qed.

Lemma call_framed {A} (r : exn + A) : framed (call r).
Proof. intros s. destruct r; apply frame_refl. Qed.
Lemma call_oblivious {A} (r : exn + A) : oblivious (call r).
Proof. intros s s'. destruct r; reflexivity. Qed.

Lemma local_call_framed {A} (r : string + A) : framed (local_call r).
Proof. intros s. destruct r; apply frame_refl. Qed.
Lemma local_call_oblivious {A} (r : string + A) : oblivious (local_call r).
Proof. intros s s'. destruct r; reflexivity. Qed.

Lemma may_raise_framed (e : option string) : framed (may_raise e).
Proof. intros s. destruct e; apply frame_refl. Qed.
Lemma may_raise_oblivious (e : option string) : oblivious (may_raise e).
Proof. intros s s'. destruct e; reflexivity. Qed.

Lemma on_shared_oblivious (f : Shared -> Shared) : oblivious (on_shared f).
Proof. intros [[p sh] r] [[p' sh'] r']. reflexivity. Qed.
Lemma on_result_oblivious (f : result -> result) : oblivious (on_result f).
Proof. intros [[p sh] r] [[p' sh'] r']. reflexivity. Qed.

Lemma count_upload_framed : framed (on_result count_upload).
Proof. intros [[p sh] r]. repeat split. Qed.

Lemma do_download_framed (cfg : config.t) (w : DocWorld) : framed (do_download cfg w).
Proof.
  intros [[p sh] r]. unfold do_download.
  destruct (download_pdf _ _ p) as [[p' issued] [e | pdf]]; repeat split.
Qed.

(** Whether the download raises, and what, is decided by the network
    and the file system alone. *)
Lemma download_pdf_outcome (interval : Q) (net : Download) (p p' : Proc) :
  (download_pdf interval net p).2 = (download_pdf interval net p').2.
Proof.
  unfold download_pdf.
  destruct (get_reply net) as [response | e]; [|reflexivity].
  destruct (raise_for_status response); [reflexivity|].
  destruct (write_error net); reflexivity.
Qed.

Lemma do_download_oblivious (cfg : config.t) (w : DocWorld) :
  oblivious (do_download cfg w).
Proof.
  intros [[p sh] r] [[p' sh'] r']. unfold do_download.
  pose proof (download_pdf_outcome (config.ARXIV_RATE_LIMIT cfg) (download w) p p') as H.
  destruct (download_pdf _ _ p) as [[p1 i1] o1],
           (download_pdf _ _ p') as [[p2 i2] o2].
  simpl in H. subst o2. destruct o1; reflexivity.
Qed.

Lemma publish_framed (cfg : config.t) (pub : Publish) (fig : Figure)
    (id kind : string) : framed (publish cfg pub fig id kind).
Proof.
  unfold publish.
  repeat (apply bind_framed; [|intros ?]);
    auto using call_framed, count_upload_framed.
Qed.

Lemma publish_oblivious (cfg : config.t) (pub : Publish) (fig : Figure)
    (id kind : string) : oblivious (publish cfg pub fig id kind).
Proof.
  unfold publish.
  repeat (apply bind_oblivious; [|intros ?]);
    auto using call_oblivious, on_result_oblivious.
Qed.

Lemma when_some_framed (x : option Figure) (body : Figure -> M unit) :
  (forall fig, framed (body fig)) -> framed (when_some x body).
Proof. intros H. destruct x; [apply H | apply ret_framed]. Qed.

Lemma when_some_oblivious (x : option Figure) (body : Figure -> M unit) :
  (forall fig, oblivious (body fig)) -> oblivious (when_some x body).
Proof. intros H. destruct x; [apply H | apply ret_oblivious]. Qed.

Lemma try_block_oblivious (cfg : config.t) (id : string) (w : DocWorld) :
  oblivious (try_block cfg id w).
Proof.
  unfold try_block.
  apply bind_oblivious; [apply do_download_oblivious | intros _].
  apply bind_oblivious; [apply local_call_oblivious | intros figures].
  destruct (select_figures_simple _ _ _) as [[t|] [a|]];
    repeat (apply bind_oblivious; [|intros ?]);
    try (apply when_some_oblivious; intros fig; apply publish_oblivious);
    auto using call_oblivious, may_raise_oblivious, on_result_oblivious,
      on_shared_oblivious.
Qed.

End TryBlockFacts.

Section WorkerFacts.
Import requests extract_figures extract_figures_batch.

Lemma post_bind {A B} (m : M A) (k : A -> M B) (s : St)
    (Q : St -> B -> Prop) (E : St -> exn -> Prop) :
  post m s (fun s1 a => post (k a) s1 Q E) E -> post (bind m k) s Q E.
Proof. unfold post, bind. destruct (m s) as [s1 [e | a]]; auto. Qed.

Lemma post_framed {A} (m : M A) (s : St)
    (Q : St -> A -> Prop) (E : St -> exn -> Prop) :
  framed m ->
  (forall s' a, frame s s' -> Q s' a) ->
  (forall s' e, frame s s' -> E s' e) ->
  post m s Q E.
Proof.
  intros Hm HQ HE. unfold post. specialize (Hm s).
  destruct (m s) as [s1 [e | a]]; auto.
Qed.

(** How the [try] block ends, from a state [s]:
    - it returns with the success flag set, the error and the ledger as
      they were; or
    - it returns with error "No figures", the ledger extended by the
      identifier, nothing selected and the flag as it was; or
    - it raises, with flag, error and ledger as they were; or
    - it raises a plain exception (from deleting the PDF) after the
      ledger was extended by the identifier in the no-figures branch. *)
Lemma try_block_post (cfg : config.t) (id : string) (w : DocWorld) (s : St) :
  post (try_block cfg id w) s
    (fun s' _ =>
       (success s'.2 = true /\ error s'.2 = error s.2
        /\ failed_file s'.1.2 = failed_file s.1.2
        /\ dispatched s'.1.2 = dispatched s.1.2 /\ paper_id s'.2 = paper_id s.2)
       \/ (marked id s s' /\ error s'.2 = Some "No figures"%string))
    (fun s' e =>
       frame s s'
       \/ (marked id s s' /\ error s'.2 = error s.2 /\ exists msg, e = Exception msg)).
Proof.
  unfold try_block.
  apply post_bind, post_framed; [apply do_download_framed | | now left].
  intros s1 _ F1.
  apply post_bind, post_framed; [apply local_call_framed | | ].
  2: { intros s2 e F2. left. eapply frame_trans; eassumption. }
  intros s2 figures F2.
  assert (frame s s2) as F by (eapply frame_trans; eassumption).
  clear F1 F2 s1.
  assert (forall t a,
    post (when_some t (fun fig => publish cfg (teaser_publish w) fig id "teaser") ;;;
          when_some a (fun fig => publish cfg (architecture_publish w) fig id "architecture") ;;;
          may_raise (unlink_error w) ;;;
          on_result set_success) s2
      (fun s' _ =>
         success s'.2 = true /\ error s'.2 = error s.2
         /\ failed_file s'.1.2 = failed_file s.1.2
         /\ dispatched s'.1.2 = dispatched s.1.2 /\ paper_id s'.2 = paper_id s.2)
      (fun s' e => frame s s')) as Hpub.
  { intros t a.
    apply post_bind, post_framed;
      [apply when_some_framed; intros; apply publish_framed | |
       intros; eapply frame_trans; eassumption].
    intros s3 _ F3.
    apply post_bind, post_framed;
      [apply when_some_framed; intros; apply publish_framed | |
       intros; eapply frame_trans; eauto using frame_trans].
    intros s4 _ F4.
    apply post_bind, post_framed;
      [apply may_raise_framed | | intros; eauto using frame_trans].
    intros s5 _ F5.
    assert (frame s s5) as (? & ? & ? & ? & ?) by eauto using frame_trans.
    destruct s5 as [[p5 sh5] r5]. unfold post. simpl in *. auto. }
  assert (forall Q E, (forall s' a, Q s' a -> E s' a) -> forall (m : M unit) (P : St -> exn -> Prop) (P' : St -> exn -> Prop),
             (forall s' e, P s' e -> P' s' e) ->
             post m s2 Q P -> post m s2 E P') as Hweak.
  { intros Q E HQ m P P' HP. unfold post. destruct (m s2) as [s' [e | a]]; auto. }
  destruct (select_figures_simple _ _ _) as [[t|] [a|]].
  1-3: eapply Hweak; [| | apply Hpub]; cbv beta; auto.
  destruct s as [[p0 sh0] r0], s2 as [[p2 sh2] r2].
  destruct F as (F1 & F2 & F3 & F4 & F5). simpl in *.
  unfold post, bind, on_shared, may_raise, on_result, marked. simpl.
  destruct (unlink_error w); simpl; right; rewrite F1; eauto 10.
Qed.

End WorkerFacts.

Section ProcessPaperFacts.
Import requests extract_figures extract_figures_batch.

Lemma handler_cases (id : string) (e : exn) (p : Proc) (sh : Shared) (r : result) :
  match e with
  | HTTPError _ _ =>
      if is_503 e then
        (p, sh, inl (ServiceUnavailable "Received HTTP 503 from arXiv/R2"))
      else (p, mark_failed_extraction id sh, inr (set_error (str_exn e) r))
  | _ => (p, mark_failed_extraction id sh, inr (set_error (str_exn e) r))
  end
  = if is_503 e
    then (p, sh, inl (ServiceUnavailable "Received HTTP 503 from arXiv/R2"))
    else (p, mark_failed_extraction id sh, inr (set_error (str_exn e) r)).
Proof. destruct e; reflexivity. Qed.

(** [process_paper] in terms of its [try] block. *)
Lemma process_paper_unfold (cfg : config.t) (id : string) (w : DocWorld)
    (p : Proc) (sh : Shared) :
  process_paper cfg id w p sh
  = match try_block cfg id w
            (p, mkShared (failed_file sh) (arxiv_log sh) (dispatched sh ++ [id]),
             new_result id) with
    | ((p', sh', r), inr _) => (p', sh', inr r)
    | ((p', sh', r), inl e) =>
        if is_503 e
        then (p', sh', inl (ServiceUnavailable "Received HTTP 503 from arXiv/R2"))
        else (p', mark_failed_extraction id sh', inr (set_error (str_exn e) r))
    end.
Proof.
  unfold process_paper.
  destruct (try_block _ _ _ _) as [[[p' sh'] r] [e | u]]; [|reflexivity].
  apply handler_cases.
Qed.

(** Whether [process_paper] raises depends on the outside world only. *)
Lemma process_paper_raises_iff (cfg : config.t) (id : string) (w : DocWorld)
    (p : Proc) (sh : Shared) :
  (exists msg, (process_paper cfg id w p sh).2 = inl (ServiceUnavailable msg))
  <-> rate_limited cfg id w = true.
Proof.
  rewrite process_paper_unfold. unfold rate_limited.
  pose proof (try_block_oblivious cfg id w
                (p, mkShared (failed_file sh) (arxiv_log sh) (dispatched sh ++ [id]),
                 new_result id)
                (start_proc 0, mkShared None [] [], new_result id)) as H.
  destruct (try_block cfg id w (p, _, _)) as [[[p1 sh1] r1] o1],
           (try_block cfg id w (start_proc 0, _, _)) as [s2 o2].
  simpl in H. subst o2. destruct o1 as [e | u]; simpl.
  - destruct (is_503 e); simpl; split; eauto; try discriminate.
    intros [msg Hm]. discriminate.
  - split; [intros [msg Hm]|]; discriminate.
Qed.

(** The three ways [process_paper] ends.  [F] is the ledger before.
    - It raises [ServiceUnavailableError]: the ledger is as before.
    - It returns a result with the success flag set and no error: the
      ledger is as before.
    - It returns a result with the flag clear and an error: the
      identifier has been appended to the ledger (twice when deleting the
      PDF failed after a no-figures mark). *)
Lemma process_paper_post (cfg : config.t) (id : string) (w : DocWorld)
    (p : Proc) (sh : Shared) :
  let F := default [] (failed_file sh) in
  match process_paper cfg id w p sh with
  | (_, sh', inl (ServiceUnavailable msg)) =>
      msg = "Received HTTP 503 from arXiv/R2"%string
      /\ failed_file sh' = failed_file sh
      /\ dispatched sh' = dispatched sh ++ [id]
  | (_, sh', inr r) =>
      dispatched sh' = dispatched sh ++ [id] /\ paper_id r = id
      /\ ((success r = true /\ error r = None /\ failed_file sh' = failed_file sh)
          \/ (success r = false /\ (exists msg, error r = Some msg)
              /\ (failed_file sh' = Some (F ++ [id])
                  \/ failed_file sh' = Some (F ++ [id; id]))))
  end.
Proof.
  intros F. rewrite process_paper_unfold.
  pose proof (try_block_post cfg id w
                (p, mkShared (failed_file sh) (arxiv_log sh) (dispatched sh ++ [id]),
                 new_result id)) as H.
  unfold post in H.
  destruct (try_block _ _ _ _) as [[[p' sh'] r] [e | u]];
    unfold frame, marked in H; simpl in H.
  - destruct (is_503 e) eqn:E503.
    + destruct H as [(H1 & H2 & _) | (_ & _ & msg & ->)]; [auto | discriminate].
    + unfold mark_failed_extraction. cbn [failed_file dispatched paper_id success error set_error].
      destruct H as [(H1 & H2 & H3 & H4 & H5) | ((H1 & H2 & H3 & H4) & _)].
      * rewrite H1, H2, H3. repeat split. right. split; [exact H4|]. eauto.
      * rewrite H1, H2, H3. repeat split. right. split; [exact H4|].
        split; [eauto|]. right. cbn. unfold F. now rewrite <- app_assoc.
  - destruct H as [(H1 & H2 & H3 & H4 & H5) | ((H1 & H2 & H3 & H4) & H5)].
    + repeat split; auto.
    + repeat split; auto. right. split; [exact H4|]. split; [eauto|]. now left.
Qed.

End ProcessPaperFacts.

(** ** The loop of [collect] *)

Section CollectFacts.
Import requests extract_figures extract_figures_batch.

Variables (cfg : config.t) (world : string -> DocWorld).

Lemma sequential_runs_worker : runs_worker cfg world (sequential_next cfg world).
Proof. intros arg p sh. exists p. split; reflexivity. Qed.

Lemma pool_runs_worker : runs_worker cfg world (pool_next cfg world).
Proof.
  intros arg ws sh. exists (nth (earliest ws) ws (start_proc 0)).
  unfold pool_next. destruct (process_paper _ _ _ _ _) as [[p' sh'] out].
  split; reflexivity.
Qed.

Lemma ledger_grows_refl (sh : Shared) : ledger_grows sh sh [].
Proof. intros x Hx. now left. Qed.

Lemma ledger_grows_step (sh sh1 sh2 : Shared) (a : string) (l : list string) :
  ledger_grows sh sh1 [a] -> ledger_grows sh1 sh2 l -> ledger_grows sh sh2 (a :: l).
Proof.
  intros H1 H2 x Hx. destruct (H2 x Hx) as [H | H]; [|right; now right].
  destruct (H1 x H) as [H' | [<- | []]]; [now left | right; now left].
Qed.

Section Next.
Context {S : Type}
  (next : string -> S -> Shared -> S * Shared * (ServiceUnavailableError + result))
  (Hnext : runs_worker cfg world next).

(** One item: what [process_paper_post] and [process_paper_raises_iff]
    say, for the producer. *)
Lemma next_post (arg : string) (s : S) (sh : Shared) :
  match next arg s sh with
  | (_, sh', inl (ServiceUnavailable msg)) =>
      rate_limited cfg arg (world arg) = true /\ msg = msg_503
      /\ failed_file sh' = failed_file sh
      /\ dispatched sh' = dispatched sh ++ [arg]
  | (_, sh', inr r) =>
      rate_limited cfg arg (world arg) = false
      /\ dispatched sh' = dispatched sh ++ [arg] /\ paper_id r = arg
      /\ ledger_grows sh sh' [arg]
      /\ ((success r = true /\ error r = None /\ failed_file sh' = failed_file sh)
          \/ (success r = false /\ (exists msg, error r = Some msg)
              /\ In arg (default [] (failed_file sh'))))
  end.
Proof.
  destruct (Hnext arg s sh) as (p & H1 & H2).
  pose proof (process_paper_post cfg arg (world arg) p sh) as Hp.
  pose proof (process_paper_raises_iff cfg arg (world arg) p sh) as Hr.
  destruct (next arg s sh) as [[s' sh'] out].
  destruct (process_paper cfg arg (world arg) p sh) as [[p' sh1] out1].
  simpl in *. subst sh1 out1. destruct out as [[msg] | r].
  - destruct Hp as (-> & ? & ?). repeat split; auto. apply Hr. eauto.
  - destruct Hp as (Hd & Hid & Hc).
    split; [|split; [exact Hd | split; [exact Hid|]]].
    + destruct (rate_limited cfg arg (world arg)); [|reflexivity].
      destruct (proj2 Hr eq_refl) as [msg Hm]. discriminate.
    + split.
      * intros x Hx.
        destruct Hc as [(_ & _ & E) | (_ & _ & [E | E])]; rewrite E in Hx.
        -- now left.
        -- cbn in Hx. apply in_app_or in Hx as [? | [<- | []]]; auto. right. now left.
        -- cbn in Hx. apply in_app_or in Hx as [? | [<- | [<- | []]]]; auto;
             right; now left.
      * destruct Hc as [? | (? & ? & [E | E])]; [now left | right..];
          (split; [assumption|]; split; [assumption|]); rewrite E; cbn;
          apply in_or_app; right; now left.
Qed.

(** No rate-limited document: the loop produces one result per
    document, in order. *)
Lemma collect_completes (ids : list string) (s : S) (sh : Shared) (acc : list result) :
  Forall (fun d => rate_limited cfg d (world d) = false) ids ->
  exists s' sh' rs,
    collect next ids s sh acc = (s', sh', inr (acc ++ rs))
    /\ map paper_id rs = ids
    /\ dispatched sh' = dispatched sh ++ ids
    /\ ledger_grows sh sh' ids
    /\ Forall (fun r => (success r = true /\ error r = None)
                        \/ (success r = false /\ exists msg, error r = Some msg)) rs.
Proof.
  intros H. revert s sh acc.
  induction H as [|a ids Ha _ IH]; intros s sh acc; simpl.
  - exists s, sh, []. rewrite !app_nil_r. repeat split; auto.
    apply ledger_grows_refl.
  - pose proof (next_post a s sh) as Hp.
    destruct (next a s sh) as [[s1 sh1] [[msg] | r]].
    + destruct Hp as [Hp _]. congruence.
    + destruct Hp as (_ & Hd & Hid & Hg & Hc).
      destruct (IH s1 sh1 (acc ++ [r])) as (s' & sh' & rs & E & Hm & Hd' & Hg' & Hf).
      exists s', sh', (r :: rs). rewrite E, <- app_assoc. simpl.
      split; [reflexivity|]. split; [congruence|].
      split; [rewrite Hd', Hd, <- app_assoc; reflexivity|].
      split; [eapply ledger_grows_step; eassumption|].
      constructor; [|assumption].
      destruct Hc as [(? & ? & ?) | (? & ? & _)]; auto.
Qed.

(** The first rate-limited document ends the loop: its exception
    becomes the message of [SystemExit], no later document is handed to
    a worker, and the ledger holds nothing but what it held before and
    the identifiers of the documents that came earlier. *)
Lemma collect_stops (pre : list string) (id : string) (post : list string)
    (s : S) (sh : Shared) (acc : list result) :
  Forall (fun d => rate_limited cfg d (world d) = false) pre ->
  rate_limited cfg id (world id) = true ->
  exists s' sh',
    collect next (pre ++ id :: post) s sh acc = (s', sh', inl msg_503)
    /\ dispatched sh' = dispatched sh ++ pre ++ [id]
    /\ ledger_grows sh sh' pre.
Proof.
  intros H Hid. revert s sh acc.
  induction H as [|a pre Ha _ IH]; intros s sh acc; simpl.
  - pose proof (next_post id s sh) as Hp.
    destruct (next id s sh) as [[s1 sh1] [[msg] | r]].
    + destruct Hp as (_ & -> & Hf & Hd). exists s1, sh1.
      repeat split; auto. intros x Hx. left. now rewrite <- Hf.
    + destruct Hp as [Hp _]. congruence.
  - pose proof (next_post a s sh) as Hp.
    destruct (next a s sh) as [[s1 sh1] [[msg] | r]].
    + destruct Hp as [Hp _]. congruence.
    + destruct Hp as (_ & Hd & _ & Hg & _).
      destruct (IH s1 sh1 (acc ++ [r])) as (s' & sh' & E & Hd' & Hg').
      exists s', sh'. rewrite E.
      split; [reflexivity|].
      split; [rewrite Hd', Hd, <- app_assoc; reflexivity|].
      eapply ledger_grows_step; eassumption.
Qed.

(** Whatever happens, the documents handed to [process_paper] are the
    first so many of the worklist, in order. *)
Lemma collect_dispatched (ids : list string) (s : S) (sh : Shared) (acc : list result) :
  exists n, dispatched (collect next ids s sh acc).1.2 = dispatched sh ++ firstn n ids.
Proof.
  revert s sh acc. induction ids as [|a ids IH]; intros s sh acc; simpl.
  - exists O. now rewrite app_nil_r.
  - pose proof (next_post a s sh) as Hp.
    destruct (next a s sh) as [[s1 sh1] [[msg] | r]].
    + destruct Hp as (_ & _ & _ & Hd). exists 1%nat. exact Hd.
    + destruct Hp as (_ & Hd & _).
      destruct (IH s1 sh1 (acc ++ [r])) as [n Hn].
      exists (Datatypes.S n). rewrite Hn, Hd, <- app_assoc. reflexivity.
Qed.

End Next.

End CollectFacts.

(** ** The run *)

Section MainFacts.
Import requests extract_figures extract_figures_batch.

Variables (cfg : config.t) (catalog : exn + list string)
          (world : string -> DocWorld) (file : option (list string)) (me : Proc)
          (max_count workers : Z) (paper_id : option string).

Let run : Run := main cfg catalog world file me max_count workers paper_id.
Let sh0 : Shared := mkShared file [] [].

(** The first rate-limited document of the worklist stops the run. *)
Lemma main_stops (pre : list string) (id : string) (post : list string) :
  worklist catalog file max_count paper_id = inr (pre ++ id :: post) ->
  Forall (fun d => rate_limited cfg d (world d) = false) pre ->
  rate_limited cfg id (world id) = true ->
  exit run = SystemExit msg_503
  /\ terminated_by_collect run = Z.ltb 1 workers
  /\ dispatched (shared run) = pre ++ [id]
  /\ ledger_grows sh0 (shared run) pre.
Proof.
  intros Hw Hpre Hid. subst run. unfold main. rewrite Hw.
  remember (pre ++ id :: post) as ids eqn:Eids.
  destruct ids as [|a l]; [destruct pre; discriminate|]. rewrite Eids.
  destruct (Z.ltb 1 workers).
  - destruct (collect_stops cfg world _ (pool_runs_worker cfg world) pre id post
                (replicate (Z.to_nat workers) me) sh0 [] Hpre Hid)
      as (s' & sh' & E & Hd & Hg).
    fold sh0. rewrite E. simpl. auto.
  - destruct (collect_stops cfg world _ (sequential_runs_worker cfg world) pre id post
                me sh0 [] Hpre Hid)
      as (s' & sh' & E & Hd & Hg).
    fold sh0. rewrite E. simpl. auto.
Qed.

(** Without a rate-limited document the run goes through the whole
    worklist, whatever else fails. *)
Lemma main_completes (ids : list string) :
  worklist catalog file max_count paper_id = inr ids -> ids <> [] ->
  Forall (fun d => rate_limited cfg d (world d) = false) ids ->
  exists results,
    exit run = Completed results
    /\ map extract_figures_batch.paper_id results = ids
    /\ dispatched (shared run) = ids
    /\ Forall (fun r => (success r = true /\ error r = None)
                        \/ (success r = false /\ exists msg, error r = Some msg))
              results.
Proof.
  intros Hw Hne Hids. subst run. unfold main. rewrite Hw.
  destruct ids as [|a l]; [congruence|]. set (ids := a :: l) in *.
  destruct (Z.ltb 1 workers).
  - destruct (collect_completes cfg world _ (pool_runs_worker cfg world) ids
                (replicate (Z.to_nat workers) me) sh0 [] Hids)
      as (s' & sh' & rs & E & Hm & Hd & _ & Hf).
    fold sh0. rewrite E. simpl. eauto.
  - destruct (collect_completes cfg world _ (sequential_runs_worker cfg world) ids
                me sh0 [] Hids)
      as (s' & sh' & rs & E & Hm & Hd & _ & Hf).
    fold sh0. rewrite E. simpl. eauto.
Qed.

(** Only documents of the worklist are handed to a worker. *)
Lemma main_dispatched (x : string) :
  In x (dispatched (shared run)) ->
  exists ids, worklist catalog file max_count paper_id = inr ids /\ In x ids.
Proof.
  subst run. unfold main.
  destruct (worklist catalog file max_count paper_id) as [e | ids]; [intros []|].
  destruct ids as [|a l]; [intros []|]. set (ids := a :: l) in *.
  intros Hx. exists ids. split; [reflexivity|].
  assert (exists n, In x (firstn n ids)) as [n Hn];
    [|rewrite <- (firstn_skipn n ids); apply in_or_app; now left].
  destruct (Z.ltb 1 workers).
  - destruct (collect_dispatched cfg world _ (pool_runs_worker cfg world) ids
                (replicate (Z.to_nat workers) me) sh0 []) as [n Hn].
    exists n. fold sh0 in Hx.
    destruct (collect (pool_next cfg world) ids _ sh0 []) as [[s' sh'] [msg | rs]];
      simpl in *; now rewrite Hn in Hx.
  - destruct (collect_dispatched cfg world _ (sequential_runs_worker cfg world) ids
                me sh0 []) as [n Hn].
    exists n. fold sh0 in Hx.
    destruct (collect (sequential_next cfg world) ids _ sh0 [])
      as [[s' sh'] [msg | rs]]; simpl in *; now rewrite Hn in Hx.
Qed.

End MainFacts.

(** ** Replies to the PDF request *)

Section FetchFacts.
Import requests extract_figures extract_figures_batch.
Local Open Scope Z_scope.



Lemma download_pdf_ok (interval : Q) (net : Download) (p : Proc) (r : Response) :
  get_reply net = Replied r -> raise_for_status r = None -> write_error net = None ->
  (download_pdf interval net p).2 = inr (content r).
Proof.
  intros Hr Hs Hw. unfold download_pdf. rewrite Hr, Hs, Hw. reflexivity.
Qed.





End FetchFacts.

(** ** The rate-limit signal *)

Section ServiceUnavailableClaims.
Import requests extract_figures extract_figures_batch.
Local Open Scope Z_scope.




End ServiceUnavailableClaims.

(** ** Per-document failures *)

Section OutcomeClaims.
Import requests extract_figures extract_figures_batch.
Local Open Scope Z_scope.

(** An exception other than the signal leaves the [try] block: the handler
    stores its text in the result and appends the identifier to the
    ledger. *)
Lemma process_paper_converts (cfg : config.t) (id : string) (w : DocWorld)
    (p : Proc) (sh : Shared) (s' : St) (e : exn) :
  try_block cfg id w (entry id p sh) = (s', inl e) -> is_503 e = false ->
  exists p' sh' res,
    process_paper cfg id w p sh = (p', sh', inr res)
    /\ paper_id res = id /\ success res = false /\ error res = Some (str_exn e)
    /\ In id (default [] (failed_file sh')).
Proof.
  intros E He. pose proof (try_block_post cfg id w (entry id p sh)) as H.
  unfold post in H. rewrite process_paper_unfold. fold (entry id p sh).
  rewrite E in *. destruct s' as [[p' sh'] res]. rewrite He.
  eexists _, _, _. split; [reflexivity|].
  unfold frame, marked in H. simpl in H. cbn.
  destruct H as [(_ & _ & H3 & H4 & _) | ((_ & _ & H3 & H4) & _)];
    repeat split; auto; apply in_or_app; right; now left.
Qed.

(** A document from which nothing is selected. *)
Lemma process_paper_no_figures (cfg : config.t) (id : string) (w : DocWorld)
    (p : Proc) (sh : Shared) (r : Response) (figures : list Figure) :
  get_reply (download w) = Replied r -> raise_for_status r = None ->
  write_error (download w) = None ->
  extracted w = inr figures ->
  select_figures_simple figures (config.FIGURE_MIN_WIDTH cfg)
    (config.FIGURE_MIN_HEIGHT cfg) = (None, None) ->
  unlink_error w = None ->
  rate_limited cfg id w = false
  /\ exists p' sh',
      process_paper cfg id w p sh
      = (p', sh', inr {| paper_id := id; success := false; figures_uploaded := 0;
                         error := Some "No figures" |})
      /\ failed_file sh' = Some (default [] (failed_file sh) ++ [id]).
Proof.
  intros Hr Hs Hw Hx Hsel Hu.
  assert (exists p' sh',
             process_paper cfg id w p sh
             = (p', sh', inr {| paper_id := id; success := false; figures_uploaded := 0;
                                error := Some "No figures" |})
             /\ failed_file sh' = Some (default [] (failed_file sh) ++ [id])) as Hp.
  { rewrite process_paper_unfold. unfold try_block, bind, do_download.
    pose proof (download_pdf_ok (config.ARXIV_RATE_LIMIT cfg) (download w) p r Hr Hs Hw)
      as Hd.
    destruct (download_pdf _ _ p) as [[p1 issued] out]. simpl in Hd. subst out.
    rewrite Hx. cbn [local_call ret]. rewrite Hsel, Hu. cbn. eauto. }
  split; [|exact Hp].
  destruct (rate_limited cfg id w) eqn:El; [|reflexivity].
  apply (process_paper_raises_iff cfg id w p sh) in El as [msg Hm].
  destruct Hp as (p' & sh' & Hp & _). rewrite Hp in Hm. discriminate.
Qed.

(** C8.
    - [process_paper] either raises the rate-limit signal, or returns a
      result for the document: with the success flag and no error, the
      ledger untouched; or without the flag, with the error set and the
      identifier appended to the ledger (twice when deleting the PDF fails
      after the no-figures mark).
    - Every exception that leaves the [try] block, other than an
      [HTTPError] with status 503, is caught: its text becomes the error of
      the result and the identifier is in the ledger.
    - A document from which neither teaser nor architecture is selected
      raises nothing: the result has the error "No figures", and the
      identifier is appended to the ledger.
    - A run without the signal produces a result for every document of the
      worklist, failed ones included. *)
Theorem per_document_errors_become_outcomes :
  (forall cfg id w p sh,
      match process_paper cfg id w p sh with
      | (_, _, inl (ServiceUnavailable _)) => rate_limited cfg id w = true
      | (_, sh', inr res) =>
          paper_id res = id
          /\ ((success res = true /\ error res = None
               /\ failed_file sh' = failed_file sh)
              \/ (success res = false /\ (exists msg, error res = Some msg)
                  /\ (failed_file sh' = Some (default [] (failed_file sh) ++ [id])
                      \/ failed_file sh'
                         = Some (default [] (failed_file sh) ++ [id; id]))))
      end)
  /\ (forall cfg id w p sh s' e,
        try_block cfg id w (entry id p sh) = (s', inl e) -> is_503 e = false ->
        exists p' sh' res,
          process_paper cfg id w p sh = (p', sh', inr res)
          /\ paper_id res = id /\ success res = false
          /\ error res = Some (str_exn e)
          /\ In id (default [] (failed_file sh')))
  /\ (forall cfg id w p sh r figures,
        get_reply (download w) = Replied r -> raise_for_status r = None ->
        write_error (download w) = None ->
        extracted w = inr figures ->
        select_figures_simple figures (config.FIGURE_MIN_WIDTH cfg)
          (config.FIGURE_MIN_HEIGHT cfg) = (None, None) ->
        unlink_error w = None ->
        rate_limited cfg id w = false
        /\ exists p' sh',
            process_paper cfg id w p sh
            = (p', sh', inr {| paper_id := id; success := false;
                               figures_uploaded := 0; error := Some "No figures" |})
            /\ failed_file sh' = Some (default [] (failed_file sh) ++ [id]))
  /\ (forall cfg catalog world file me max_count workers paper_id ids,
        worklist catalog file max_count paper_id = inr ids -> ids <> [] ->
        Forall (fun d => rate_limited cfg d (world d) = false) ids ->
        exists results,
          exit (main cfg catalog world file me max_count workers paper_id)
          = Completed results
          /\ map extract_figures_batch.paper_id results = ids
          /\ Forall (fun res => (success res = true /\ error res = None)
                                \/ (success res = false
                                    /\ exists msg, error res = Some msg)) results).
Proof.
  split.
  { intros cfg id w p sh.
    pose proof (process_paper_post cfg id w p sh) as H.
    pose proof (process_paper_raises_iff cfg id w p sh) as Hr.
    destruct (process_paper cfg id w p sh) as [[p' sh'] [[msg] | res]]; cbn in *.
    - apply Hr. eauto.
    - destruct H as (_ & H1 & H2). auto. }
  split; [exact process_paper_converts|].
  split; [exact process_paper_no_figures|].
  intros cfg catalog world file me max_count workers paper_id ids Hw Hne Hids.
  destruct (main_completes cfg catalog world file me max_count workers paper_id
              ids Hw Hne Hids) as (rs & H1 & H2 & _ & H4).
  eauto.
Qed.

(** The theorem at document "B" of [examples.world], which has no figure,
    and at the run over "A", "B", "D", "A". *)
Lemma per_document_errors_become_outcomes_witness :
  (select_figures_simple [] (config.FIGURE_MIN_WIDTH config.default)
     (config.FIGURE_MIN_HEIGHT config.default) = (None, None)
   /\ exists p' sh',
       process_paper config.default "B" (examples.world "B") examples.me
         (mkShared None [] [])
       = (p', sh', inr {| paper_id := "B"; success := false; figures_uploaded := 0;
                          error := Some "No figures" |})
       /\ failed_file sh' = Some ["B"%string])
  /\ (Forall (fun d => rate_limited config.default d (examples.world d) = false)
        ["A"; "B"; "D"; "A"]%string
      /\ exists results,
          exit (main config.default (inr ["A"; "B"; "D"; "A"]%string) examples.world
                  None examples.me 100 2 None) = Completed results
          /\ map extract_figures_batch.paper_id results = ["A"; "B"; "D"; "A"]%string).
Proof.
  destruct per_document_errors_become_outcomes as (_ & _ & Hno & Hrun).
  split.
  - split; [reflexivity|].
    destruct (Hno config.default "B"%string (examples.world "B") examples.me
                (mkShared None [] [])
                {| status_code := 200; reason := "OK"; content := [];
                   json_success := true |} []
                eq_refl eq_refl eq_refl eq_refl eq_refl eq_refl)
      as (_ & p' & sh' & H1 & H2).
    exists p', sh'. split; [exact H1 | exact H2].
  - assert (Forall (fun d => rate_limited config.default d (examples.world d) = false)
              ["A"; "B"; "D"; "A"]%string) as Hf by (repeat constructor).
    split; [exact Hf|].
    destruct (Hrun config.default (inr ["A"; "B"; "D"; "A"]%string) examples.world
                None examples.me 100 2 None ["A"; "B"; "D"; "A"]%string eq_refl
                ltac:(discriminate) Hf) as (rs & H1 & H2 & _).
    exists rs. split; [exact H1 | exact H2].
Defined.

End OutcomeClaims.

(** ** The failed ledger and the worklist *)

Section LedgerClaims.
Import requests extract_figures extract_figures_batch.

(** What is in the set that [load_failed_extractions] returns: the
    non-empty stripped lines of the file. *)
Lemma load_failed_extractions_spec (file : option (list string)) (p : string) :
  p ∈ load_failed_extractions file
  <-> exists lines line,
        file = Some lines /\ In line lines /\ strip_line line = p /\ p <> ""%string.
Proof.
  unfold load_failed_extractions. destruct file as [lines|].
  - rewrite elem_of_list_to_set, list_elem_of_In, filter_In, in_map_iff.
    rewrite negb_true_iff. split.
    + intros [(line & <- & Hin) Hne]. exists lines, line.
      repeat split; auto. intros E. rewrite E in Hne. discriminate.
    + intros (lines' & line & [= <-] & Hin & <- & Hne). split; [eauto|].
      now apply String.eqb_neq.
  - split; [intros H; now apply not_elem_of_empty in H|].
    intros (lines & line & H & _). discriminate.
Qed.

(** A marked identifier is found by the next run, provided it is not empty
    and has no white space at its ends. *)
Lemma mark_then_load (id : string) (sh : Shared) :
  strip_line id = id -> id <> ""%string ->
  id ∈ load_failed_extractions (failed_file (mark_failed_extraction id sh)).
Proof.
  intros Hs Hne. apply load_failed_extractions_spec.
  exists (default [] (failed_file sh) ++ [id]), id.
  repeat split; auto. apply in_or_app. right. now left.
Qed.

Lemma slice_to_In {A : Type} (n : Z) (l : list A) (x : A) :
  In x (slice_to n l) -> In x l.
Proof.
  unfold slice_to. destruct (Z.leb 0 n); intros H;
    match type of H with In _ (firstn ?k _) =>
      rewrite <- (firstn_skipn k l); apply in_or_app; now left
    end.
Qed.

(** In batch mode no identifier of the ledger is in the worklist. *)
Lemma worklist_excludes_failed (catalog : exn + list string)
    (file : option (list string)) (max_count : Z) (paper_id : option string)
    (p : string) (ids : list string) :
  paper_id = None \/ paper_id = Some ""%string ->
  p ∈ load_failed_extractions file ->
  worklist catalog file max_count paper_id = inr ids -> ~ In p ids.
Proof.
  intros Hmode Hp Hw Hin.
  assert (worklist catalog file max_count paper_id
          = match catalog with
            | inl e => inl e
            | inr paper_ids_all =>
                inr (slice_to max_count
                       (List.filter
                          (fun p => negb (bool_decide (p ∈ load_failed_extractions file)))
                          paper_ids_all))
            end) as E by (destruct Hmode as [-> | ->]; reflexivity).
  rewrite E in Hw. destruct catalog as [e | paper_ids_all]; [discriminate|].
  injection Hw as <-. apply slice_to_In, filter_In in Hin as [_ Hin].
  apply negb_true_iff, bool_decide_eq_false in Hin. contradiction.
Qed.

(** C7.
    - In batch mode (no document identifier given, or an empty one) an
      identifier that is in the set loaded from the ledger file at the
      start of the run is not in the worklist and is not handed to
      [process_paper] during the run.
    - With a document identifier given, the worklist is that identifier
      alone, whatever the ledger holds, and it is handed to
      [process_paper]. *)
Theorem failed_ledger_excluded :
  (forall cfg catalog world file me max_count workers paper_id p,
      paper_id = None \/ paper_id = Some ""%string ->
      p ∈ load_failed_extractions file ->
      (forall ids, worklist catalog file max_count paper_id = inr ids -> ~ In p ids)
      /\ ~ In p (dispatched
                   (shared (main cfg catalog world file me max_count workers paper_id))))
  /\ (forall cfg catalog world file me max_count workers c s,
        worklist catalog file max_count (Some (String c s)) = inr [String c s]
        /\ dispatched
             (shared (main cfg catalog world file me max_count workers
                        (Some (String c s)))) = [String c s]).
Proof.
  split.
  - intros cfg catalog world file me max_count workers paper_id p Hmode Hp.
    split.
    + intros ids. now apply worklist_excludes_failed.
    + intros Hin.
      apply main_dispatched in Hin as (ids & Hw & Hin).
      exact (worklist_excludes_failed catalog file max_count paper_id p ids
               Hmode Hp Hw Hin).
  - intros cfg catalog world file me max_count workers c s.
    split; [reflexivity|].
    set (id := String c s).
    assert (worklist catalog file max_count (Some id) = inr [id]) as Hw by reflexivity.
    destruct (rate_limited cfg id (world id)) eqn:El.
    + destruct (main_stops cfg catalog world file me max_count workers (Some id)
                  [] id [] Hw (List.Forall_nil _) El) as (_ & _ & Hd & _).
      exact Hd.
    + assert (Forall (fun d => rate_limited cfg d (world d) = false) [id]) as Hf
        by (constructor; [exact El | constructor]).
      destruct (main_completes cfg catalog world file me max_count workers (Some id)
                  [id] Hw ltac:(discriminate) Hf) as (rs & _ & _ & Hd & _).
      exact Hd.
Qed.

(** The theorem at a catalog "A", "B", "D" and a ledger file holding "B":
    the batch run leaves "B" out, the single-document run on "B" does
    not. *)
Lemma failed_ledger_excluded_witness :
  "B"%string ∈ load_failed_extractions (Some ["B"%string])
  /\ worklist (inr ["A"; "B"; "D"]%string) (Some ["B"%string]) 100 None
     = inr ["A"; "D"]%string
  /\ ~ In "B"%string
       (dispatched
          (shared (main config.default (inr ["A"; "B"; "D"]%string) examples.world
                     (Some ["B"%string]) examples.me 100 2 None)))
  /\ dispatched
       (shared (main config.default (inr ["A"; "B"; "D"]%string) examples.world
                  (Some ["B"%string]) examples.me 100 2 (Some "B"%string)))
     = ["B"%string].
Proof.
  assert ("B"%string ∈ load_failed_extractions (Some ["B"%string])) as Hin.
  { apply load_failed_extractions_spec. exists ["B"%string], "B"%string.
    repeat split; [now left | discriminate]. }
  destruct failed_ledger_excluded as [Hbatch Hsingle].
  destruct (Hbatch config.default (inr ["A"; "B"; "D"]%string) examples.world
              (Some ["B"%string]) examples.me 100%Z 2%Z None "B"%string
              (or_introl eq_refl) Hin) as [_ Hd].
  destruct (Hsingle config.default (inr ["A"; "B"; "D"]%string) examples.world
              (Some ["B"%string]) examples.me 100%Z 2%Z "B"%char ""%string)
    as [_ Hs].
  split; [exact Hin|]. split; [reflexivity|]. split; [exact Hd | exact Hs].
Defined.

End LedgerClaims.

(** ** The download rate limit *)

Section RateLimitClaims.
Import requests extract_figures extract_figures_batch.
Local Open Scope Q_scope.

(** Within one process: the request goes out no earlier than
    [PDF_MIN_INTERVAL] after the time in [_last_pdf_download], and without
    delay when that much time has passed already. *)
Lemma download_pdf_waits (interval : Q) (net : Download) (p : Proc) :
  let issued := (download_pdf interval net p).1.2 in
  now p <= issued
  /\ _last_pdf_download p + interval <= issued
  /\ (issued == now p \/ issued == _last_pdf_download p + interval).
Proof.
  unfold download_pdf.
  destruct (Qltb (now p - _last_pdf_download p) interval) eqn:E.
  - apply Qltb_lt in E.
    destruct (get_reply net) as [r | e]; [destruct (raise_for_status r);
      [|destruct (write_error net)]|]; cbn; repeat split; try lra; right; lra.
  - apply Qltb_ge in E.
    destruct (get_reply net) as [r | e]; [destruct (raise_for_status r);
      [|destruct (write_error net)]|]; cbn; repeat split; try lra; left; lra.
Qed.

(** The time stamp is set when the response has arrived with a good
    status, and only then. *)
Lemma download_pdf_timestamp (interval : Q) (net : Download) (p : Proc) :
  let '(p', issued, _) := download_pdf interval net p in
  match get_reply net with
  | Replied r =>
      match raise_for_status r with
      | None => _last_pdf_download p' == issued + get_duration net
      | Some _ => _last_pdf_download p' = _last_pdf_download p
      end
  | NotReplied _ => _last_pdf_download p' = _last_pdf_download p
  end.
Proof.
  unfold download_pdf.
  destruct (Qltb (now p - _last_pdf_download p) interval);
    (destruct (get_reply net) as [r | e]; [destruct (raise_for_status r);
      [|destruct (write_error net)]|]); cbn; reflexivity.
Qed.

(** C9 (the code at the failing input).  Two documents, "A" and "B" of
    [examples.world], whose downloads succeed; the run starts at time 1000
    and the interval is 3.5 seconds.
    - With two workers, each pool process has its own
      [_last_pdf_download], still 0: both requests go out at time 1000,
      no time apart.
    - With one worker the second request waits until 4.5 seconds after
      the first (3.5 seconds after the first download was recorded). *)
Theorem rate_limit_is_per_process :
  (exists t1 t2,
      arxiv_log (shared (main config.default (inr ["A"; "B"]%string) examples.world
                           None examples.me 100 2 None)) = [t1; t2]
      /\ t2 - t1 == 0
      /\ ~ config.ARXIV_RATE_LIMIT config.default <= t2 - t1)
  /\ (exists t1 t2,
        arxiv_log (shared (main config.default (inr ["A"; "B"]%string) examples.world
                             None examples.me 100 1 None)) = [t1; t2]
        /\ t2 - t1 == 4.5
        /\ config.ARXIV_RATE_LIMIT config.default <= t2 - t1).
Proof.
  split; vm_compute; eexists _, _; (split; [reflexivity|]); split;
    try reflexivity; try discriminate.
  intros H. apply H. reflexivity.
Qed.

End RateLimitClaims.

(** * Further properties *)

(** ** The captions of a page *)

Section CaptionOrderFacts.
Import text re extract_figures.
Local Open Scope Q_scope.

Lemma insert_by_stable {A : Type} (key : A -> Q) (k : Q) (x : A) (l : list A) :
  List.filter (fun a => Qeq_bool (key a) k) (insert_by key x l)
  = List.filter (fun a => Qeq_bool (key a) k) (x :: l).
Proof.
  induction l as [|h t IH]; [reflexivity|].
  cbn [insert_by]. destruct (Qltb (key h) (key x)) eqn:E; [|reflexivity].
  apply Qltb_lt in E.
  cbn [List.filter]. rewrite IH. cbn [List.filter].
  destruct (Qeq_bool (key h) k) eqn:Eh; destruct (Qeq_bool (key x) k) eqn:Ex;
    try reflexivity.
  apply Qeq_bool_iff in Eh, Ex. lra.
Qed.

Lemma sort_by_stable {A : Type} (key : A -> Q) (k : Q) (l : list A) :
  List.filter (fun a => Qeq_bool (key a) k) (sort_by key l)
  = List.filter (fun a => Qeq_bool (key a) k) l.
Proof.
  induction l as [|h t IH]; [reflexivity|].
  cbn [sort_by fold_right]. fold (sort_by key t).
  rewrite insert_by_stable. cbn [List.filter]. now rewrite IH.
Qed.

(** X1.  The list [figure_captions] of a page, after the sort: it holds
    exactly the captions recognised in the page's blocks (none lost, none
    invented, none twice), in ascending order of their ['y']; captions
    with the same ['y'] keep the order of their blocks; and ['y'] is the
    top edge of the caption's box. *)
Theorem page_captions_sorted_stable (blocks : list Block) :
  let found := omap block_caption blocks in
  Permutation found (page_captions blocks)
  /\ StronglySorted (key_le cap_y) (page_captions blocks)
  /\ (forall y, List.filter (fun c => Qeq_bool (cap_y c) y) (page_captions blocks)
                = List.filter (fun c => Qeq_bool (cap_y c) y) found)
  /\ Forall (fun c => cap_y c = y0 (cap_bbox c)) (page_captions blocks).
Proof.
  cbn zeta. unfold page_captions. repeat split.
  - apply sort_by_perm.
  - apply sort_by_sorted.
  - intros y. apply sort_by_stable.
  - apply page_captions_y.
Qed.

End CaptionOrderFacts.

Section CaptionFieldFacts.
Import text re extract_figures.

Lemma rep0_greedy (cls : ascii -> bool) (s : str) :
  exists m rest others,
    s = m ++ rest /\ forallb cls m = true /\ stops cls rest
    /\ rep0 cls s = rest :: others
    /\ Forall (fun r => exists c r', r = c :: r' /\ cls c = true) others.
Proof.
  induction s as [|c s IH].
  - exists [], [], []. repeat split; constructor.
  - cbn [rep0]. destruct (cls c) eqn:E.
    + destruct IH as (m & rest & others & -> & Hm & Hr & -> & Ho).
      exists (c :: m), rest, (others ++ [c :: m ++ rest]).
      repeat split; [cbn; now rewrite E | exact Hr |].
      apply Forall_app. split; [exact Ho|].
      constructor; [|constructor]. now exists c, (m ++ rest).
    + exists [], (c :: s), []. repeat split; [exact E | constructor].
Qed.

Lemma flat_map_head {A B : Type} (f : A -> list B) (l : list A) (b : B) (bs : list B) :
  flat_map f l = b :: bs -> exists a bs', In a l /\ f a = b :: bs'.
Proof.
  induction l as [|a l IH]; [discriminate|].
  cbn [flat_map]. destruct (f a) as [|b' bs'] eqn:E.
  - intros H. destruct (IH H) as (a' & bs'' & Hin & Hf).
    exists a', bs''. split; [now right | exact Hf].
  - intros H. injection H as -> _. exists a, bs'. split; [now left | exact E].
Qed.

Lemma flat_map_nil {A B : Type} (f : A -> list B) (l : list A) :
  Forall (fun a => f a = []) l -> flat_map f l = [].
Proof.
  induction 1 as [|a l Ha _ IH]; [reflexivity|].
  cbn [flat_map]. now rewrite Ha, IH.
Qed.

Lemma space_not_digit (c : ascii) : is_space c = true -> is_digit c = false.
Proof.
  intros H. destruct (is_digit c) eqn:E; [|reflexivity].
  apply digit_not_space in E. congruence.
Qed.

(** [\s+\d+] is greedy: the first way of matching takes all the white
    space and then all the digits. *)
Lemma number_greedy (s out : str) (outs : list str) :
  run (Seq (Rep1 is_space) (Rep1 is_digit)) s = out :: outs ->
  exists sep ds,
    s = sep ++ ds ++ out
    /\ sep <> [] /\ forallb is_space sep = true
    /\ ds <> [] /\ forallb is_digit ds = true
    /\ stops is_digit out.
Proof.
  cbn [run]. destruct s as [|c s]; [discriminate|].
  cbn [rep1]. destruct (is_space c) eqn:Ec; [|discriminate].
  destruct (rep0_greedy is_space s) as (m & rest & others & -> & Hm & Hr & -> & Ho).
  intros H.
  assert (flat_map (rep1 is_digit) others = []) as E0.
  { apply flat_map_nil. eapply List.Forall_impl; [|exact Ho].
    intros r (c' & r' & -> & Hc'). cbn. now rewrite (space_not_digit c' Hc'). }
  assert (rep1 is_digit rest ++ flat_map (rep1 is_digit) others = out :: outs) as H'
    by exact H.
  rewrite E0, app_nil_r in H'. clear H E0.
  destruct rest as [|d rest]; [discriminate|].
  cbn [rep1] in H'. destruct (is_digit d) eqn:Ed; [|discriminate].
  destruct (rep0_greedy is_digit rest) as (m' & rest' & others' & -> & Hm' & Hr' & E1 & _).
  rewrite E1 in H'. injection H' as <- _.
  exists (c :: m), (d :: m'). repeat split.
  - discriminate.
  - cbn. now rewrite Ec.
  - discriminate.
  - cbn. now rewrite Ed.
  - exact Hr'.
Qed.

Lemma strip_exact (ws x x1 x2 : str) (c d : ascii) :
  forallb is_space ws = true ->
  x = c :: x1 -> is_space c = false ->
  x = x2 ++ [d] -> is_space d = false ->
  strip (ws ++ x) = x.
Proof.
  intros Hws Hc Ec Hd Ed. unfold strip, rstrip.
  rewrite lstrip_spaces_app by exact Hws.
  replace (lstrip x) with x by (rewrite Hc; cbn; now rewrite Ec).
  rewrite Hd at 1. rewrite rev_app_distr. cbn. rewrite Ed.
  change (d :: rev x2) with (rev [d] ++ rev x2). rewrite <- rev_app_distr, rev_involutive.
  now rewrite Hd.
Qed.

Lemma strip_head (s : str) : stops is_space (strip s).
Proof.
  unfold strip, rstrip.
  destruct (lstrip s) as [|c u] eqn:E; [exact I|].
  assert (is_space c = false) as Hc.
  { clear -E. induction s as [|a s IH]; [discriminate|].
    cbn in E. destruct (is_space a) eqn:Ea; [now apply IH|].
    injection E as -> _. exact Ea. }
  cbn [rev]. destruct (lstrip_keeps (rev u) c [] Hc) as (a' & ->).
  rewrite rev_app_distr. cbn. exact Hc.
Qed.

Lemma last_digit (ds : str) :
  ds <> [] -> forallb is_digit ds = true ->
  exists ds' d, ds = ds' ++ [d] /\ is_digit d = true.
Proof.
  intros Hne Hall. destruct (exists_last Hne) as (ds' & d & ->).
  exists ds', d. split; [reflexivity|].
  rewrite forallb_app in Hall. apply andb_true_iff in Hall as [_ Hall].
  cbn in Hall. now rewrite andb_true_r in Hall.
Qed.

(** What [match.group(0)] is for the caption pattern. *)
Lemma caption_pattern_group0 (t g : str) :
  re_match caption_pattern t = Some g ->
  exists ws kw sep ds rest,
    t = ws ++ kw ++ sep ++ ds ++ rest
    /\ g = ws ++ kw ++ sep ++ ds
    /\ forallb is_space ws = true
    /\ keyword kw
    /\ sep <> [] /\ forallb is_space sep = true
    /\ ds <> [] /\ forallb is_digit ds = true
    /\ stops is_digit rest.
Proof.
  unfold re_match. destruct (run caption_pattern t) as [|out outs] eqn:E; [discriminate|].
  intros H. injection H as <-.
  unfold caption_pattern in E. cbn [run] in E.
  apply flat_map_head in E as (r1 & outs1 & Hr1 & E).
  apply rep0_spec in Hr1 as (ws & -> & Hws).
  apply flat_map_head in E as (r2 & outs2 & Hr2 & E).
  change (lit (of_string "Figure") r1
          ++ flat_map (fun s => lit (of_string ".") s ++ [s]) (lit (of_string "Fig") r1))
    with (run (Alt (Lit (of_string "Figure"))
                   (Seq (Lit (of_string "Fig")) (Opt (Lit (of_string "."))))) r1) in Hr2.
  apply run_spec in Hr2 as (kw & -> & Hkw). apply keyword_matches in Hkw.
  change (flat_map (rep1 is_digit) (rep1 is_space r2))
    with (run (Seq (Rep1 is_space) (Rep1 is_digit)) r2) in E.
  apply number_greedy in E as (sep & ds & -> & Hsep & Hsp & Hds & Hdg & Hstop).
  exists ws, kw, sep, ds, out. repeat split; try assumption.
  rewrite !length_app.
  replace (length ws + (length kw + (length sep + (length ds + length out))) - length out)%nat
    with (length (ws ++ kw ++ sep ++ ds)) by (rewrite !length_app; lia).
  replace (ws ++ kw ++ sep ++ ds ++ out) with ((ws ++ kw ++ sep ++ ds) ++ out)
    by now rewrite <- !app_assoc.
  rewrite firstn_app, Nat.sub_diag, firstn_all. cbn. now rewrite app_nil_r.
Qed.

(** X2.  The fields of a caption recognised in a block.  The stripped
    text of the block is a keyword ("Figure", "Fig." or "Fig" in any
    letter case), white space, a number and a rest that does not begin
    with a digit; ['prefix'] is the keyword, the white space and the whole
    number; ['text'] is the first 200 characters of the stripped text;
    ['bbox'] is the box of the block and ['y'] its top edge. *)
Theorem block_caption_fields (b : Block) (c : Caption) :
  block_caption b = Some c ->
  exists kw sep ds rest,
    strip (block_text b) = kw ++ sep ++ ds ++ rest
    /\ cap_prefix c = kw ++ sep ++ ds
    /\ keyword kw
    /\ sep <> [] /\ forallb is_space sep = true
    /\ ds <> [] /\ forallb is_digit ds = true
    /\ stops is_digit rest
    /\ cap_text c = firstn 200 (strip (block_text b))
    /\ cap_bbox c = block_rect b
    /\ cap_y c = y0 (block_rect b).
Proof.
  unfold block_caption.
  destruct (re_match caption_pattern (strip (block_text b))) as [g|] eqn:E; [|discriminate].
  intros H. injection H as <-. cbn.
  apply caption_pattern_group0 in E
    as (ws & kw & sep & ds & rest & Et & -> & Hws & Hkw & Hsep & Hsp & Hds & Hdg & Hstop).
  destruct (keyword_head kw Hkw) as (k & kw' & Ekw & Hk).
  assert (ws = []) as ->.
  { destruct ws as [|w ws]; [reflexivity|].
    pose proof (strip_head (block_text b)) as Hh. rewrite Et in Hh. cbn in Hh, Hws.
    rewrite Hh in Hws. discriminate. }
  cbn [app] in *.
  destruct (last_digit ds Hds Hdg) as (ds' & d & Eds & Hd).
  exists kw, sep, ds, rest. repeat split; try assumption.
  apply (strip_exact [] (kw ++ sep ++ ds) (kw' ++ sep ++ ds) (kw ++ sep ++ ds') k d).
  - reflexivity.
  - now rewrite Ekw.
  - exact Hk.
  - rewrite Eds. now rewrite <- !app_assoc.
  - now apply digit_not_space.
Qed.

(** The theorem at a block with the text ["  Fig. 12b shows"]: the prefix
    is ["Fig. 12"]. *)
Lemma block_caption_fields_witness :
  block_caption examples.caption_block = Some examples.caption_12
  /\ exists kw sep ds rest,
       strip (block_text examples.caption_block) = kw ++ sep ++ ds ++ rest
       /\ cap_prefix examples.caption_12 = kw ++ sep ++ ds
       /\ keyword kw
       /\ sep <> [] /\ forallb is_space sep = true
       /\ ds <> [] /\ forallb is_digit ds = true
       /\ stops is_digit rest
       /\ cap_text examples.caption_12
          = firstn 200 (strip (block_text examples.caption_block))
       /\ cap_bbox examples.caption_12 = block_rect examples.caption_block
       /\ cap_y examples.caption_12 = y0 (block_rect examples.caption_block).
Proof.
  split; [reflexivity|].
  apply (block_caption_fields examples.caption_block examples.caption_12).
  reflexivity.
Defined.

End CaptionFieldFacts.

(** ** The figures of a document *)

Section SearchFacts.
Import text re extract_figures.
Local Open Scope Q_scope.

Variable intersects : Rect -> Rect -> bool.

Lemma find_images_spec (page : Page) (rect : Rect) (left right : Q) (bbox : Rect) :
  In bbox (_find_images_in_rect intersects page rect left right)
  <-> In bbox (page_images page)
      /\ intersects bbox rect = true
      /\ y0 rect <= (y0 bbox + y1 bbox) / 2 <= y1 rect
      /\ left <= (x0 bbox + x1 bbox) / 2 <= right.
Proof.
  unfold _find_images_in_rect. rewrite filter_In. cbn zeta.
  rewrite !andb_true_iff, !Qle_bool_iff. tauto.
Qed.

Lemma find_images_none (page : Page) (rect : Rect) (left right : Q) :
  y1 rect < y0 rect -> _find_images_in_rect intersects page rect left right = [].
Proof.
  intros H. unfold _find_images_in_rect.
  induction (page_images page) as [|bbox l IH]; [reflexivity|].
  cbn [List.filter]. rewrite IH.
  destruct (intersects bbox rect); [|reflexivity]. cbn zeta.
  destruct (Qle_bool (y0 rect) ((y0 bbox + y1 bbox) / 2)) eqn:E1; [|reflexivity].
  destruct (Qle_bool ((y0 bbox + y1 bbox) / 2) (y1 rect)) eqn:E2; [|reflexivity].
  apply Qle_bool_iff in E1, E2. lra.
Qed.

Lemma search_region_on_page (page_h page_w : Q) (figure_captions : list Caption)
    (i : nat) (cap : Caption) :
  0 <= safe_top (search_region page_h page_w figure_captions i cap)
  /\ bottom (search_region page_h page_w figure_captions i cap) <= Qmax 0 page_h.
Proof.
  unfold search_region.
  destruct (_get_horizontal_bounds cap figure_captions page_w) as [l r].
  cbn [safe_top bottom]. split; qminmax.
Qed.

(** X3.  The images a figure is assembled from, after the search and the
    one re-search for a tall figure: each is an image of the page whose
    centre lies between the horizontal bounds and, vertically, between the
    top of the search as it ends and the bottom of the caption's zone; the
    top of the search is never above the safe top, which is never above
    the page. *)
Theorem expand_search_images (page : Page) (figure_captions : list Caption)
    (i : nat) (cap : Caption) (bbox : Rect) :
  let rg := search_region (page_h page) (page_w page) figure_captions i cap in
  let cy := (y0 bbox + y1 bbox) / 2 in
  let cx := (x0 bbox + x1 bbox) / 2 in
  In bbox (snd (expand_search intersects page rg)) ->
  In bbox (page_images page)
  /\ safe_top rg <= fst (expand_search intersects page rg) <= cy
  /\ cy <= bottom rg
  /\ left rg <= cx <= right rg
  /\ 0 <= safe_top rg /\ bottom rg <= Qmax 0 (page_h page).
Proof.
  intros rg cy cx Hin.
  pose proof (search_region_top (page_h page) (page_w page) figure_captions i cap) as Htop.
  fold rg in Htop.
  pose proof (expand_search_top intersects page rg Htop) as Htop'.
  pose proof (search_region_on_page (page_h page) (page_w page) figure_captions i cap)
    as Hz. fold rg in Hz.
  assert (In bbox (page_images page)
          /\ fst (expand_search intersects page rg) <= cy /\ cy <= bottom rg
          /\ left rg <= cx <= right rg) as H.
  { clear Htop Htop' Hz. revert Hin. unfold expand_search.
    destruct (_find_images_in_rect intersects page
                (mkRect (left rg) (top rg) (right rg) (bottom rg))
                (left rg) (right rg)) as [|r0 rs] eqn:E; [intros []|].
    set (images := r0 :: rs).
    destruct (Qltb (min_of y0 images) (top rg - 20));
      [destruct (Qltb (Qmax (safe_top rg) (min_of y0 images - 10)) (top rg - 20))|];
      cbn [fst snd]; intros Hin.
    - apply find_images_spec in Hin as (H1 & _ & H2 & H3). cbn [y0 y1] in H2. tauto.
    - change (In bbox (r0 :: rs)) in Hin. rewrite <- E in Hin.
      apply find_images_spec in Hin as (H1 & _ & H2 & H3). cbn [y0 y1] in H2. tauto.
    - change (In bbox (r0 :: rs)) in Hin. rewrite <- E in Hin.
      apply find_images_spec in Hin as (H1 & _ & H2 & H3). cbn [y0 y1] in H2. tauto. }
  tauto.
Qed.

End SearchFacts.

Section ExtractorFacts.
Import text re extract_figures.
Local Open Scope Q_scope.

Variable intersects : Rect -> Rect -> bool.
Variables rect_width rect_height : Rect -> Q.

(** X4.  The rectangle that is rendered for a caption lies on the page:
    its left edge is not left of 0, its right edge not right of the page
    width, its top edge not above the safe top (so not above 0), its
    bottom edge not below the page height nor more than 3 points below
    the caption's box; and it has passed the size checks. *)
Theorem figure_rect_within_page (page : Page) (figure_captions : list Caption)
    (i : nat) (cap : Caption) (r : Rect) :
  let rg := search_region (page_h page) (page_w page) figure_captions i cap in
  figure_rect intersects rect_width rect_height page figure_captions i cap = Some r ->
  0 <= x0 r /\ x1 r <= page_w page
  /\ 0 <= safe_top rg <= y0 r
  /\ y1 r <= page_h page /\ y1 r <= y1 (cap_bbox cap) + 3
  /\ (if is_tight rg then 30 else 40) <= rect_height r <= page_h page * 0.85
  /\ (if is_tight rg then 60 else 80) <= rect_width r.
Proof.
  intros rg. unfold figure_rect. fold rg.
  destruct (expand_search intersects page rg) as [t images].
  destruct images as [|r0 rs]; [discriminate|].
  set (images := r0 :: rs).
  destruct (search_region_on_page (page_h page) (page_w page) figure_captions i cap)
    as [Hz _]. fold rg in Hz.
  destruct (is_tight rg); cbn zeta iota beta;
    match goal with
    | |- (if ?c then _ else _) = _ -> _ => destruct c eqn:E; [discriminate|]
    end;
    intros H; injection H as <-;
    apply orb_false_iff in E as [E E3]; apply orb_false_iff in E as [E1 E2];
    apply Qltb_ge in E1, E2, E3; cbn [x0 x1 y0 y1];
    (repeat split; [qminmax | qminmax | exact Hz | qminmax | qminmax | qminmax
                   | exact E1 | exact E3 | exact E2]).
Qed.

Lemma figure_rect_edges (page : Page) (figure_captions : list Caption)
    (i : nat) (cap : Caption) (r : Rect) :
  figure_rect intersects rect_width rect_height page figure_captions i cap = Some r ->
  safe_top (search_region (page_h page) (page_w page) figure_captions i cap) <= y0 r
  /\ y1 r == Qmin (page_h page) (y1 (cap_bbox cap) + 3).
Proof.
  unfold figure_rect.
  set (rg := search_region (page_h page) (page_w page) figure_captions i cap).
  destruct (expand_search intersects page rg) as [t images].
  destruct images as [|r0 rs]; [discriminate|].
  set (images := r0 :: rs).
  destruct (is_tight rg); cbn zeta iota beta;
    match goal with
    | |- (if ?c then _ else _) = _ -> _ => destruct c; [discriminate|]
    end;
    intros H; injection H as <-; cbn [y0 y1]; (split; [qminmax | reflexivity]).
Qed.

(** X22.  The rectangles rendered for two captions of a page do not
    overlap vertically: the rectangle of the earlier caption ends no lower
    than the rectangle of the later one begins, provided the box of the
    earlier caption ends at most 7 points below the box of the caption
    just before the later one (which holds always when the two captions
    follow one another). *)
Theorem rendered_rectangles_apart (page : Page) (figure_captions : list Caption)
    (i j : nat) (a prev b : Caption) (r r' : Rect) :
  (i < j)%nat ->
  nth_error figure_captions (j - 1) = Some prev ->
  y1 (cap_bbox a) <= y1 (cap_bbox prev) + 7 ->
  figure_rect intersects rect_width rect_height page figure_captions i a = Some r ->
  figure_rect intersects rect_width rect_height page figure_captions j b = Some r' ->
  y1 r <= y0 r'.
Proof.
  intros Hij Hprev Hle Hr Hr'.
  apply figure_rect_edges in Hr as [_ Hr]. apply figure_rect_edges in Hr' as [Hr' _].
  rewrite Hr. eapply Qle_trans; [|exact Hr'].
  unfold search_region.
  destruct (_get_horizontal_bounds b figure_captions (page_w page)) as [l rr].
  cbn [safe_top].
  replace (Nat.ltb 0 j) with true by (symmetry; apply Nat.ltb_lt; lia).
  rewrite (nth_error_nth _ _ _ Hprev). qminmax.
Qed.

(** X5.  A caption that begins less than 10 points below the bottom edge
    of the caption before it in the page's order (as the second of two
    captions side by side does) gets no figure: its zone is empty, no
    image is found and nothing is rendered.  (The caption before it ends
    below the top of the page, and this caption begins above the bottom
    of the page.) *)
Theorem crowded_caption_gets_no_figure (page_num : nat) (page : Page)
    (figure_captions : list Caption) (i : nat) (prev cap : Caption) :
  nth_error figure_captions i = Some prev ->
  y0 (cap_bbox cap) < y1 (cap_bbox prev) + 10 ->
  0 < y1 (cap_bbox prev) + 10 ->
  0 < page_h page -> y0 (cap_bbox cap) < page_h page ->
  let rg := search_region (page_h page) (page_w page) figure_captions (S i) cap in
  bottom rg < safe_top rg <= top rg
  /\ snd (expand_search intersects page rg) = []
  /\ figure_rect intersects rect_width rect_height page figure_captions (S i) cap = None
  /\ caption_figure intersects rect_width rect_height page_num page figure_captions
       (S i) cap = None.
Proof.
  intros Hprev Hclose Hpos Hph Hpage rg.
  assert (bottom rg < safe_top rg) as Hinv.
  { subst rg. unfold search_region.
    destruct (_get_horizontal_bounds cap figure_captions (page_w page)) as [l r].
    cbn [safe_top bottom]. change (Nat.ltb 0 (S i)) with true. cbv iota.
    replace (S i - 1)%nat with i by lia.
    rewrite (nth_error_nth _ _ _ Hprev).
    destruct (Nat.ltb (S i) (length figure_captions - 1)); qminmax. }
  pose proof (search_region_top (page_h page) (page_w page) figure_captions (S i) cap)
    as Htop. fold rg in Htop.
  assert (expand_search intersects page rg = (top rg, [])) as Hexp.
  { unfold expand_search. rewrite find_images_none; [reflexivity|]. cbn. lra. }
  assert (figure_rect intersects rect_width rect_height page figure_captions (S i) cap
          = None) as Hfig.
  { unfold figure_rect. fold rg. now rewrite Hexp. }
  split; [split; assumption|]. split; [now rewrite Hexp|]. split; [exact Hfig|].
  unfold caption_figure. now rewrite Hfig.
Qed.

Lemma In_enumerate {A : Type} (l : list A) (i : nat) (a : A) :
  In (i, a) (enumerate l) <-> nth_error l i = Some a.
Proof.
  unfold enumerate.
  assert (forall n, In (i, a) (combine (seq n (length l)) l)
                    <-> (n <= i)%nat /\ nth_error l (i - n) = Some a) as H.
  { induction l as [|h t IH]; intros n.
    - cbn. split; [intros [] | intros [_ H]; destruct (i - n)%nat; discriminate].
    - cbn [length seq combine In]. rewrite IH. split.
      + intros [H | [H1 H2]].
        * injection H as -> ->. rewrite Nat.sub_diag. split; [lia | reflexivity].
        * split; [lia|]. replace (i - n)%nat with (S (i - S n)) by lia. exact H2.
      + intros [H1 H2]. destruct (Nat.eq_dec n i) as [-> | Hne].
        * rewrite Nat.sub_diag in H2. injection H2 as ->. now left.
        * right. split; [lia|].
          replace (i - n)%nat with (S (i - S n)) in H2 by lia. exact H2. }
  rewrite H, Nat.sub_0_r. intuition lia.
Qed.

(** X6.  Where each extracted figure comes from.  A figure that
    [extract_figures] returns is more than 300 pixels wide and more than
    150 high and has the format "png"; the page it names is a page of the
    document; on that page a block was recognised as a caption, whose
    text and prefix the figure carries; and the figure's size and bytes
    are those of the pixmap rendered for the rectangle found for that
    caption. *)
Theorem extract_figures_provenance (doc : list Page) (f : Figure) :
  In f (extract_figures intersects rect_width rect_height doc) ->
  (300 < width f)%Z /\ (150 < height f)%Z /\ format f = "png"%string
  /\ exists pg b cap i r pix,
       nth_error doc (page f) = Some pg
       /\ In b (page_blocks pg) /\ block_caption b = Some cap
       /\ nth_error (page_captions (page_blocks pg)) i = Some cap
       /\ caption f = cap_text cap /\ caption_prefix f = cap_prefix cap
       /\ figure_rect intersects rect_width rect_height pg
            (page_captions (page_blocks pg)) i cap = Some r
       /\ get_pixmap pg r = Some pix
       /\ width f = pix_width pix /\ height f = pix_height pix
       /\ bytes f = pix_png pix.
Proof.
  unfold extract_figures. rewrite filter_In, andb_true_iff, !Z.ltb_lt.
  intros (Hin & Hw & Hh).
  apply in_flat_map in Hin as ([n pg] & Hpg & Hin).
  apply In_enumerate in Hpg.
  unfold page_figures in Hin.
  apply list_elem_of_In, list_elem_of_omap in Hin as ([i cap] & Hcap & Hf).
  apply list_elem_of_In, In_enumerate in Hcap.
  unfold caption_figure in Hf.
  destruct (figure_rect intersects rect_width rect_height pg
              (page_captions (page_blocks pg)) i cap) as [r|] eqn:Er; [|discriminate].
  destruct (get_pixmap pg r) as [pix|] eqn:Ep; [|discriminate].
  injection Hf as <-. cbn.
  assert (In cap (omap block_caption (page_blocks pg))) as Hb.
  { eapply Permutation_in; [symmetry; apply sort_by_perm|].
    eapply nth_error_In. exact Hcap. }
  apply list_elem_of_In, list_elem_of_omap in Hb as (b & Hb & Hbc).
  apply list_elem_of_In in Hb.
  repeat split; try assumption.
  exists pg, b, cap, i, r, pix. repeat split; assumption.
Qed.

Lemma page_figures_page (n : nat) (pg : Page) :
  Forall (fun f => page f = n) (page_figures intersects rect_width rect_height n pg).
Proof.
  apply List.Forall_forall. intros f Hin. unfold page_figures in Hin.
  apply list_elem_of_In, list_elem_of_omap in Hin as ([i cap] & _ & Hf).
  unfold caption_figure in Hf.
  destruct (figure_rect intersects rect_width rect_height pg _ i cap); [|discriminate].
  destruct (get_pixmap pg _); [|discriminate].
  now injection Hf as <-.
Qed.

Lemma StronglySorted_filter {A : Type} (R : A -> A -> Prop) (p : A -> bool) (l : list A) :
  StronglySorted R l -> StronglySorted R (List.filter p l).
Proof.
  induction 1 as [|a l Hs IH Ha]; [constructor|].
  cbn. destruct (p a); [|exact IH].
  constructor; [exact IH|].
  apply List.Forall_forall. intros x Hx. apply filter_In in Hx as [Hx _].
  eapply List.Forall_forall in Ha; eassumption.
Qed.

Lemma StronglySorted_app {A : Type} (R : A -> A -> Prop) (l1 l2 : list A) :
  StronglySorted R l1 -> StronglySorted R l2 ->
  (forall a b, In a l1 -> In b l2 -> R a b) ->
  StronglySorted R (l1 ++ l2).
Proof.
  intros H1 H2 H. induction H1 as [|a l1 Hs IH Ha]; [exact H2|].
  cbn [app]. constructor.
  - apply IH. intros x y Hx. apply H. now right.
  - apply Forall_app. split; [exact Ha|].
    apply List.Forall_forall. intros y Hy. apply H; [now left | exact Hy].
Qed.

Lemma extract_figures_pages (doc : list Page) :
  StronglySorted (fun f g => (page f <= page g)%nat)
    (extract_figures intersects rect_width rect_height doc)
  /\ Forall (fun f => (page f < length doc)%nat)
       (extract_figures intersects rect_width rect_height doc).
Proof.
  unfold extract_figures, enumerate.
  assert (forall n l,
    let figs := flat_map (fun '(page_num, page) =>
                            page_figures intersects rect_width rect_height page_num page)
                         (combine (seq n (length l)) l) in
    StronglySorted (fun f g => (page f <= page g)%nat) figs
    /\ Forall (fun f => n <= page f < n + length l)%nat figs) as H.
  { intros n l. revert n. induction l as [|pg l IH]; intros n.
    - cbn. split; constructor.
    - cbn [length seq combine flat_map]. destruct (IH (S n)) as [IH1 IH2].
      pose proof (page_figures_page n pg) as Hn.
      split.
      + apply StronglySorted_app; [|exact IH1|].
        * clear -Hn. induction Hn as [|f fs Hf Hfs IHfs]; constructor; [exact IHfs|].
          eapply List.Forall_impl; [|exact Hfs]. cbn. intros g Hg. lia.
        * intros a b Ha Hb.
          eapply List.Forall_forall in Hn; [|exact Ha].
          eapply List.Forall_forall in IH2; [|exact Hb]. cbn in IH2. lia.
      + apply Forall_app. split.
        * eapply List.Forall_impl; [|exact Hn]. cbn. intros g Hg. lia.
        * eapply List.Forall_impl; [|exact IH2]. cbn. intros g Hg. lia. }
  destruct (H O doc) as [H1 H2]. split.
  - now apply StronglySorted_filter.
  - apply List.Forall_forall. intros f Hf. apply filter_In in Hf as [Hf _].
    eapply List.Forall_forall in H2; [|exact Hf]. cbn in H2. lia.
Qed.

Lemma length_page_captions (blocks : list Block) :
  length (page_captions blocks)
  = length (List.filter (fun b => is_caption (block_text b)) blocks).
Proof.
  unfold page_captions. rewrite <- (Permutation_length (sort_by_perm cap_y _)).
  induction blocks as [|b bs IHb]; [reflexivity|].
  change (omap block_caption (b :: bs))
    with (match block_caption b with
          | Some c => c :: omap block_caption bs
          | None => omap block_caption bs
          end).
  cbn [List.filter].
  pose proof (block_caption_is_caption b) as Hb.
  destruct (block_caption b) as [c|] eqn:Ec.
  - replace (is_caption (block_text b)) with true
      by (symmetry; apply Hb; now exists c).
    cbn [length]. f_equal. exact IHb.
  - destruct (is_caption (block_text b)) eqn:Ei; [|exact IHb].
    destruct Hb as [_ Hb]. destruct (Hb eq_refl) as [c Hc']. discriminate.
Qed.

(** X7.  The figures that [extract_figures] returns are in the order of
    the pages of the document, each naming a page of the document, and
    there are no more of them than there are blocks recognised as
    captions; a document with no such block gives no figure. *)
Theorem extract_figures_in_page_order (doc : list Page) :
  StronglySorted (fun f g => (page f <= page g)%nat)
    (extract_figures intersects rect_width rect_height doc)
  /\ Forall (fun f => (page f < length doc)%nat)
       (extract_figures intersects rect_width rect_height doc)
  /\ (length (extract_figures intersects rect_width rect_height doc)
      <= length (flat_map (fun pg => List.filter (fun b => is_caption (block_text b))
                                                (page_blocks pg)) doc))%nat.
Proof.
  destruct (extract_figures_pages doc) as [H1 H2]. split; [exact H1|]. split; [exact H2|].
  clear H1 H2. unfold extract_figures.
  etransitivity; [apply List.filter_length_le|].
  unfold enumerate. generalize 0%nat.
  induction doc as [|pg doc IH]; intros n; [cbn; lia|].
  cbn [length seq combine flat_map]. rewrite !length_app.
  specialize (IH (S n)).
  pose proof (page_figures_count intersects rect_width rect_height n pg) as Hc.
  pose proof (length_page_captions (page_blocks pg)) as Hcap.
  lia.
Qed.

Lemma filter_head {A : Type} (f : A -> bool) (l : list A) (a : A) (rest : list A) :
  List.filter f l = a :: rest ->
  exists l1 l2,
    l = l1 ++ a :: l2 /\ f a = true
    /\ Forall (fun x => f x = false) l1 /\ List.filter f l2 = rest.
Proof.
  induction l as [|x l IH]; [discriminate|].
  cbn. destruct (f x) eqn:E.
  - intros H. injection H as -> H. exists [], l. repeat split; try assumption.
    constructor.
  - intros H. destruct (IH H) as (l1 & l2 & -> & Ha & H1 & H2).
    exists (x :: l1), l2. repeat split; try assumption. now constructor.
Qed.

Lemma StronglySorted_mid {A : Type} (R : A -> A -> Prop) (l1 l2 l3 : list A) (a b : A) :
  StronglySorted R (l1 ++ a :: l2 ++ b :: l3) -> R a b.
Proof.
  induction l1 as [|x l1 IH]; cbn [app]; intros H; inversion H as [|? ? Hs Hf]; subst.
  - apply Forall_app in Hf as [_ Hf]. now apply Forall_cons in Hf as [Hb _].
  - now apply IH.
Qed.

(** X8.  The extractor and the selector together: when a teaser and an
    architecture figure are selected from the figures extracted from a
    document, the teaser is not from a later page than the architecture
    figure, and both meet the stricter of the extractor's size filter
    (more than 300 x 150) and the selector's thresholds. *)
Theorem teaser_precedes_architecture (doc : list Page) (min_width min_height : Z)
    (a b : Figure) :
  select_figures_simple (extract_figures intersects rect_width rect_height doc)
    min_width min_height = (Some a, Some b) ->
  (page a <= page b)%nat
  /\ (Z.max 301 min_width <= width a /\ Z.max 151 min_height <= height a)%Z
  /\ (Z.max 301 min_width <= width b /\ Z.max 151 min_height <= height b)%Z.
Proof.
  rewrite select_figures_simple_nth.
  set (figures := extract_figures intersects rect_width rect_height doc).
  destruct (List.filter (qualifies min_width min_height) figures) as [|a' [|b' rest]] eqn:E;
    try discriminate.
  cbn. intros H. injection H as -> ->.
  apply filter_head in E as (l1 & l2' & Hfig & Ha & _ & E).
  apply filter_head in E as (l2 & l3 & -> & Hb & _ & _).
  assert (In a figures /\ In b figures) as [Hina Hinb].
  { rewrite Hfig. split; apply in_or_app; right; [now left|].
    right. apply in_or_app. right. now left. }
  split; [|split].
  - destruct (extract_figures_pages doc) as [Hs _].
    fold figures in Hs. rewrite Hfig in Hs.
    exact (StronglySorted_mid _ _ _ _ _ _ Hs).
  - unfold figures, extract_figures in Hina. apply filter_In in Hina as [_ Hina].
    apply andb_true_iff in Hina as [H1 H2]. apply Z.ltb_lt in H1, H2.
    unfold qualifies in Ha. apply andb_true_iff in Ha as [H3 H4].
    apply Z.leb_le in H3, H4. lia.
  - unfold figures, extract_figures in Hinb. apply filter_In in Hinb as [_ Hinb].
    apply andb_true_iff in Hinb as [H1 H2]. apply Z.ltb_lt in H1, H2.
    unfold qualifies in Hb. apply andb_true_iff in Hb as [H3 H4].
    apply Z.leb_le in H3, H4. lia.
Qed.

End ExtractorFacts.

Section ExtractorWitnesses.
Import text re extract_figures.
Local Open Scope Q_scope.

(** X3 at the first caption of [examples.page_two] and the image above
    it. *)
Lemma expand_search_images_witness :
  let rg := search_region 800 600 (examples.captions_of examples.page_two) 0
              (examples.caption_at examples.page_two 0) in
  In (mkRect 100 100 500 290) (snd (expand_search examples.intersects examples.page_two rg))
  /\ fst (expand_search examples.intersects examples.page_two rg) <= (100 + 290) / 2
  /\ (100 + 290) / 2 <= bottom rg
  /\ left rg <= (100 + 500) / 2 <= right rg.
Proof.
  cbn zeta.
  assert (In (mkRect 100 100 500 290)
            (snd (expand_search examples.intersects examples.page_two
                    (search_region 800 600 (examples.captions_of examples.page_two) 0
                       (examples.caption_at examples.page_two 0))))) as Hin
    by (vm_compute; left; reflexivity).
  split; [exact Hin|].
  destruct (expand_search_images examples.intersects examples.page_two
              (examples.captions_of examples.page_two) 0
              (examples.caption_at examples.page_two 0) (mkRect 100 100 500 290) Hin)
    as (_ & [_ H1] & H2 & H3 & _).
  split; [exact H1|]. split; [exact H2 | exact H3].
Defined.

(** X4 at the first caption of [examples.page_two]: the rectangle is
    (90, 90, 510, 323) on the 600 x 800 page. *)
Lemma figure_rect_within_page_witness :
  figure_rect examples.intersects examples.rect_width examples.rect_height
    examples.page_two (examples.captions_of examples.page_two) 0
    (examples.caption_at examples.page_two 0) = Some (mkRect 90 90 510 323)
  /\ 0 <= 90 /\ 510 <= page_w examples.page_two
  /\ 323 <= page_h examples.page_two.
Proof.
  assert (figure_rect examples.intersects examples.rect_width examples.rect_height
            examples.page_two (examples.captions_of examples.page_two) 0
            (examples.caption_at examples.page_two 0) = Some (mkRect 90 90 510 323)) as H
    by reflexivity.
  split; [exact H|].
  destruct (figure_rect_within_page examples.intersects examples.rect_width
              examples.rect_height examples.page_two
              (examples.captions_of examples.page_two) 0
              (examples.caption_at examples.page_two 0) (mkRect 90 90 510 323) H)
    as (H1 & H2 & _ & H3 & _).
  split; [exact H1|]. split; [exact H2 | exact H3].
Defined.

(** X5 at [examples.page_row]: the second of its two captions, which are
    side by side, gets no figure. *)
Lemma crowded_caption_gets_no_figure_witness :
  nth_error (examples.captions_of examples.page_row) 0
  = Some (examples.caption_at examples.page_row 0)
  /\ y0 (cap_bbox (examples.caption_at examples.page_row 1))
     < y1 (cap_bbox (examples.caption_at examples.page_row 0)) + 10
  /\ caption_figure examples.intersects examples.rect_width examples.rect_height 0
       examples.page_row (examples.captions_of examples.page_row) 1
       (examples.caption_at examples.page_row 1) = None.
Proof.
  assert (y0 (cap_bbox (examples.caption_at examples.page_row 1))
          < y1 (cap_bbox (examples.caption_at examples.page_row 0)) + 10) as Hclose
    by (vm_compute; reflexivity).
  split; [reflexivity|]. split; [exact Hclose|].
  apply (crowded_caption_gets_no_figure examples.intersects examples.rect_width
           examples.rect_height 0%nat examples.page_row
           (examples.captions_of examples.page_row) 0%nat
           (examples.caption_at examples.page_row 0)
           (examples.caption_at examples.page_row 1)).
  - reflexivity.
  - exact Hclose.
  - vm_compute. reflexivity.
  - vm_compute. reflexivity.
  - vm_compute. reflexivity.
Defined.

(** X22 at the two captions of [examples.page_two]: the first rectangle
    ends at 323, the second begins at 390. *)
Lemma rendered_rectangles_apart_witness :
  figure_rect examples.intersects examples.rect_width examples.rect_height
    examples.page_two (examples.captions_of examples.page_two) 0
    (examples.caption_at examples.page_two 0) = Some (mkRect 90 90 510 323)
  /\ figure_rect examples.intersects examples.rect_width examples.rect_height
       examples.page_two (examples.captions_of examples.page_two) 1
       (examples.caption_at examples.page_two 1) = Some (mkRect 90 390 510 623)
  /\ y1 (mkRect 90 90 510 323) <= y0 (mkRect 90 390 510 623).
Proof.
  split; [reflexivity|]. split; [reflexivity|].
  apply (rendered_rectangles_apart examples.intersects examples.rect_width
           examples.rect_height examples.page_two
           (examples.captions_of examples.page_two) 0%nat 1%nat
           (examples.caption_at examples.page_two 0)
           (examples.caption_at examples.page_two 0)
           (examples.caption_at examples.page_two 1)).
  - lia.
  - reflexivity.
  - vm_compute. discriminate.
  - reflexivity.
  - reflexivity.
Defined.

(** X6 at the document [examples.two_pages] and the figure of its second
    page's first caption. *)
Lemma extract_figures_provenance_witness :
  In (examples.figure_on 1 "Figure 1: Overview." "Figure 1")
     (extract_figures examples.intersects examples.rect_width examples.rect_height
        examples.two_pages)
  /\ nth_error examples.two_pages 1 = Some examples.page_two
  /\ exists b cap,
       In b (page_blocks examples.page_two) /\ block_caption b = Some cap
       /\ cap_text cap = of_string "Figure 1: Overview.".
Proof.
  assert (In (examples.figure_on 1 "Figure 1: Overview." "Figure 1")
            (extract_figures examples.intersects examples.rect_width
               examples.rect_height examples.two_pages)) as Hin
    by (vm_compute; left; reflexivity).
  split; [exact Hin|]. split; [reflexivity|].
  destruct (extract_figures_provenance examples.intersects examples.rect_width
              examples.rect_height examples.two_pages _ Hin)
    as (_ & _ & _ & pg & b & cap & i & r & pix & Hpg & Hb & Hcap & _ & Htext & _).
  cbn in Hpg. injection Hpg as <-.
  exists b, cap. split; [exact Hb|]. split; [exact Hcap|].
  rewrite <- Htext. reflexivity.
Defined.

(** X8 at the document [examples.two_pages] with the thresholds 400 and
    200: both selected figures are from its second page. *)
Lemma teaser_precedes_architecture_witness :
  select_figures_simple
    (extract_figures examples.intersects examples.rect_width examples.rect_height
       examples.two_pages) 400 200
  = (Some (examples.figure_on 1 "Figure 1: Overview." "Figure 1"),
     Some (examples.figure_on 1 "Figure 2: Results." "Figure 2"))
  /\ (page (examples.figure_on 1 "Figure 1: Overview." "Figure 1")
      <= page (examples.figure_on 1 "Figure 2: Results." "Figure 2"))%nat.
Proof.
  assert (select_figures_simple
            (extract_figures examples.intersects examples.rect_width
               examples.rect_height examples.two_pages) 400 200
          = (Some (examples.figure_on 1 "Figure 1: Overview." "Figure 1"),
             Some (examples.figure_on 1 "Figure 2: Results." "Figure 2"))) as H
    by reflexivity.
  split; [exact H|].
  exact (proj1 (teaser_precedes_architecture examples.intersects examples.rect_width
                  examples.rect_height examples.two_pages 400%Z 200%Z _ _ H)).
Defined.

End ExtractorWitnesses.

(** ** The transcoder and the object keys *)

Section TranscoderFacts.
Import process_figures.
Local Open Scope Z_scope.

Lemma scale_down_width (img : Image) (max_width : Z) :
  width (scale_down img max_width) <= Z.max max_width (width img)
  /\ (width (scale_down img max_width) <= max_width \/ width img <= max_width)
  /\ Z.ltb max_width (width (scale_down img max_width)) = false.
Proof.
  unfold scale_down. destruct (Z.ltb max_width (width img)) eqn:E.
  - cbn. rewrite Z.ltb_irrefl. apply Z.ltb_lt in E. lia.
  - rewrite E. apply Z.ltb_ge in E. lia.
Qed.

Lemma normalize_mode_fixed (img : Image) :
  mode img = "RGB"%string \/ mode img = "L"%string -> normalize_mode img = img.
Proof.
  intros H. apply mode_in_RGB_L in H. unfold normalize_mode. now rewrite H.
Qed.

(** X9.  Transcoding is idempotent: the image that [downsample_image]
    saves, transcoded again with the same maximum width (and any
    quality), is saved unchanged: it is neither resized nor converted
    again. *)
Theorem downsample_idempotent (img : Image) (max_width quality quality' : Z) :
  saved (downsample (saved (downsample img max_width quality)) max_width quality')
  = saved (downsample img max_width quality).
Proof.
  unfold downsample. cbn [saved].
  set (img1 := normalize_mode (scale_down img max_width)).
  destruct (normalize_mode_spec (scale_down img max_width)) as (Hw & _ & Hm & _).
  fold img1 in Hw, Hm.
  assert (scale_down img1 max_width = img1) as ->.
  { unfold scale_down. rewrite Hw.
    destruct (scale_down_width img max_width) as (_ & _ & ->). reflexivity. }
  now apply normalize_mode_fixed.
Qed.




End TranscoderFacts.

Section KeyFacts.
Import process_figures sync_r2_to_d1_figures.
Local Open Scope string_scope.

Lemma append_cons (a : ascii) (s t : string) : String a s ++ t = String a (s ++ t).
Proof. reflexivity. Qed.

Lemma append_nil (t : string) : "" ++ t = t.
Proof. reflexivity. Qed.

Lemma append_assoc (s t u : string) : (s ++ t) ++ u = s ++ t ++ u.
Proof.
  induction s as [|a s IH]; rewrite ?append_cons, ?append_nil; [reflexivity|].
  now rewrite IH.
Qed.

Lemma count_app (c : ascii) (s t : string) : count c (s ++ t) = (count c s + count c t)%nat.
Proof.
  induction s as [|a s IH]; rewrite ?append_cons, ?append_nil; cbn [count];
    [reflexivity|].
  rewrite IH. lia.
Qed.

Lemma split_app (c : ascii) (s t : string) :
  count c s = O -> split c (s ++ String c t) = s :: split c t.
Proof.
  induction s as [|a s IH]; rewrite ?append_cons, ?append_nil; cbn [count split].
  - intros _. now rewrite Ascii.eqb_refl.
  - destruct (Ascii.eqb a c); [discriminate|]. cbn. intros H. now rewrite IH.
Qed.

Lemma split_none (c : ascii) (s : string) : count c s = O -> split c s = [s].
Proof.
  induction s as [|a s IH]; cbn [count split]; [reflexivity|].
  destruct (Ascii.eqb a c); [discriminate|]. cbn. intros H. now rewrite IH.
Qed.

(** [c.join(parts)] for a non-empty list of parts. *)
Lemma join_cons (c : ascii) (a : ascii) (t : list string) (h : string) :
  String a (fold_left (fun acc part => acc ++ String c part) t h)
  = fold_left (fun acc part => acc ++ String c part) t (String a h).
Proof.
  revert h. induction t as [|x t IH]; intros h; cbn [fold_left]; [reflexivity|].
  now rewrite IH, append_cons.
Qed.

Lemma split_join (c : ascii) (s : string) :
  Forall (fun part => count c part = O) (split c s)
  /\ match split c s with
     | [] => False
     | h :: t => s = fold_left (fun acc part => acc ++ String c part) t h
     end.
Proof.
  induction s as [|a s (IH2 & IH3)]; cbn [split].
  - split; [repeat constructor | reflexivity].
  - destruct (Ascii.eqb_spec a c) as [-> | Hne].
    + split; [now constructor|].
      destruct (split c s) as [|h t]; [contradiction|].
      cbn [fold_left]. rewrite append_nil. rewrite IH3 at 1.
      apply join_cons.
    + destruct (split c s) as [|h t]; [contradiction|].
      apply Forall_cons in IH2 as [Hh Ht]. split.
      * constructor; [|exact Ht]. cbn [count].
        destruct (Ascii.eqb_spec a c) as [-> | _]; [contradiction | exact Hh].
      * rewrite IH3 at 1. apply join_cons.
Qed.

Lemma substring_app_l (s t : string) : substring 0 (String.length s) (s ++ t) = s.
Proof.
  induction s as [|a s IH]; rewrite ?append_cons, ?append_nil; cbn [String.length substring];
    [now destruct t | now rewrite IH].
Qed.

Lemma substring_all (t : string) : substring 0 (String.length t) t = t.
Proof. induction t as [|b t IH]; cbn; [reflexivity | now rewrite IH]. Qed.

Lemma substring_app_r (s t : string) :
  substring (String.length s) (String.length t) (s ++ t) = t.
Proof.
  induction s as [|a s IH]; rewrite ?append_cons, ?append_nil; cbn [String.length substring];
    [apply substring_all | exact IH].
Qed.

Lemma length_app_string (s t : string) :
  String.length (s ++ t) = (String.length s + String.length t)%nat.
Proof.
  induction s as [|a s IH]; rewrite ?append_cons, ?append_nil; cbn [String.length];
    [reflexivity | now rewrite IH].
Qed.

Lemma substring_split (n : nat) (s : string) :
  (n <= String.length s)%nat ->
  s = substring 0 n s ++ substring n (String.length s - n) s.
Proof.
  revert n. induction s as [|a s IH]; intros [|n] H; cbn [String.length] in H;
    cbn [String.length substring Nat.sub]; rewrite ?append_cons, ?append_nil; try lia.
  - reflexivity.
  - f_equal. now rewrite substring_all.
  - f_equal. apply IH. lia.
Qed.

Lemma endswith_app (s suffix : string) : endswith (s ++ suffix) suffix = true.
Proof.
  unfold endswith. rewrite length_app_string.
  replace (String.length s + String.length suffix - String.length suffix)%nat
    with (String.length s) by lia.
  rewrite substring_app_r, String.eqb_refl.
  apply andb_true_iff. split; [apply Nat.leb_le; lia | reflexivity].
Qed.

Lemma drop_last_app (s suffix : string) : drop_last (String.length suffix) (s ++ suffix) = s.
Proof.
  unfold drop_last. rewrite length_app_string.
  replace (String.length s + String.length suffix - String.length suffix)%nat
    with (String.length s) by lia.
  apply substring_app_l.
Qed.

Lemma endswith_inv (s suffix : string) :
  endswith s suffix = true -> s = drop_last (String.length suffix) s ++ suffix.
Proof.
  unfold endswith, drop_last. intros H. apply andb_true_iff in H as [H1 H2].
  apply Nat.leb_le in H1. apply String.eqb_eq in H2.
  pose proof (substring_split (String.length s - String.length suffix) s ltac:(lia)) as E.
  replace (String.length s - (String.length s - String.length suffix))%nat
    with (String.length suffix) in E by lia.
  now rewrite H2 in E.
Qed.

Lemma prefix_inv (p s : string) : String.prefix p s = true -> exists t, s = p ++ t.
Proof.
  revert s. induction p as [|a p IH]; intros s H; [now exists s|].
  destruct s as [|b s]; [discriminate|]. cbn [String.prefix] in H.
  destruct (ascii_dec a b) as [-> | _]; [|discriminate].
  destruct (IH s H) as (t & ->). now exists t.
Qed.

Lemma append_slash_inj (a b x y : string) :
  count "/" a = O -> count "/" b = O ->
  a ++ String "/" x = b ++ String "/" y -> a = b /\ x = y.
Proof.
  revert b. induction a as [|c a IH]; intros [|d b];
    rewrite ?append_cons, ?append_nil; cbn [count]; intros Ha Hb E.
  - injection E as ->. now split.
  - injection E as <- _. now rewrite Ascii.eqb_refl in Hb.
  - injection E as -> _. now rewrite Ascii.eqb_refl in Ha.
  - injection E as -> E. destruct (Ascii.eqb d "/"); [discriminate|].
    destruct (IH b Ha Hb E) as [-> ->]. now split.
Qed.

(** X11.  The keys under which [process_and_upload_figure] stores the two
    versions of a figure are read back by [parse_figure_key] as that
    document, that kind and the right version, provided neither the
    identifier nor the kind contains a slash and the kind does not end in
    "_thumb". *)
Theorem uploaded_keys_parse_back
    (Image_open : list Byte.byte -> string + Image)
    (put_full put_thumb : option requests.exn)
    (figure_bytes : list Byte.byte) (paper_id kind : string)
    (full_size thumb_size : Z) (u : Uploaded) :
  process_and_upload_figure Image_open put_full put_thumb figure_bytes paper_id kind
    full_size thumb_size = inr u ->
  count "/" paper_id = O -> count "/" kind = O ->
  endswith (kind ++ ".webp") "_thumb.webp" = false ->
  parse_figure_key (r2_key u) = Some (paper_id, kind, false)
  /\ parse_figure_key (thumb_key u) = Some (paper_id, kind, true).
Proof.
  unfold process_and_upload_figure.
  destruct (downsample_image Image_open figure_bytes full_size 80); [discriminate|].
  destruct (downsample_image Image_open figure_bytes thumb_size 75); [discriminate|].
  destruct put_full; [discriminate|]. destruct put_thumb; [discriminate|].
  intros H Hp Hk Hnt. injection H as <-. cbn [r2_key thumb_key].
  assert (forall suffix, count "/" suffix = O ->
            startswith ("figures/" ++ paper_id ++ "/" ++ kind ++ suffix) "figures/" = true
            /\ count "/" ("figures/" ++ paper_id ++ "/" ++ kind ++ suffix) = 2%nat
            /\ split "/" ("figures/" ++ paper_id ++ "/" ++ kind ++ suffix)
               = ["figures"; paper_id; kind ++ suffix]) as Hshape.
  { intros suffix Hs.
    assert ("figures/" ++ paper_id ++ "/" ++ kind ++ suffix
            = "figures" ++ String "/" (paper_id ++ String "/" (kind ++ suffix))) as E
      by reflexivity.
    split; [|split].
    - unfold startswith. rewrite !append_cons, append_nil. cbn [String.prefix].
      repeat (destruct (ascii_dec _ _); [|congruence]).
      now destruct (paper_id ++ _).
    - rewrite E. do 3 (rewrite ?count_app; cbn [count]).
      rewrite Hp, Hk, Hs. reflexivity.
    - rewrite E, split_app by reflexivity. rewrite split_app by exact Hp.
      rewrite split_none; [reflexivity|]. now rewrite count_app, Hk, Hs. }
  unfold parse_figure_key. split.
  - destruct (Hshape ".webp" eq_refl) as (-> & -> & ->). cbn [negb orb Nat.eqb].
    rewrite Hnt, endswith_app.
    change 5%nat with (String.length ".webp"). now rewrite drop_last_app.
  - destruct (Hshape "_thumb.webp" eq_refl) as (-> & -> & ->). cbn [negb orb Nat.eqb].
    rewrite endswith_app.
    change 11%nat with (String.length "_thumb.webp"). now rewrite drop_last_app.
Qed.

(** X12.  What [parse_figure_key] accepts: a key that it reads as
    [(paper_id, kind, is_thumb)] is "figures/", the identifier, a slash,
    the kind and ".webp" or "_thumb.webp"; the identifier and the kind
    contain no slash, and a key read as a full-size version has a kind
    that does not end in "_thumb". *)
Theorem parse_figure_key_inv (key paper_id kind : string) (is_thumb : bool) :
  parse_figure_key key = Some (paper_id, kind, is_thumb) ->
  key = "figures/" ++ paper_id ++ "/" ++ kind
        ++ (if is_thumb then "_thumb.webp" else ".webp")
  /\ count "/" paper_id = O /\ count "/" kind = O
  /\ (is_thumb = false -> endswith (kind ++ ".webp") "_thumb.webp" = false).
Proof.
  unfold parse_figure_key.
  destruct (startswith key "figures/") eqn:Hpre; [|discriminate].
  destruct (Nat.eqb (count "/" key) 2) eqn:Hcount; [|discriminate].
  cbn [negb orb].
  destruct (split_join "/" key) as (Hparts & Hjoin).
  destruct (split "/" key) as [|p0 [|p1 [|filename [|? ?]]]]; try discriminate.
  cbn [fold_left] in Hjoin.
  apply Forall_cons in Hparts as [H0 Hparts].
  apply Forall_cons in Hparts as [H1 Hparts].
  apply Forall_cons in Hparts as [H2 _].
  assert (p0 = "figures") as ->.
  { apply prefix_inv in Hpre as (t & Ht). rewrite Hjoin in Ht.
    rewrite append_assoc in Ht.
    change ("figures/" ++ t) with ("figures" ++ String "/" t) in Ht.
    now apply append_slash_inj in Ht as [-> _]. }
  assert (forall suffix, filename = kind ++ suffix -> count "/" kind = O) as Hkind.
  { intros suffix ->. rewrite count_app in H2. lia. }
  assert (forall f, ("figures" ++ String "/" p1) ++ String "/" f
                    = "figures/" ++ p1 ++ "/" ++ f) as Hkey
    by (intros f; now rewrite append_assoc).
  rewrite Hkey in Hjoin.
  destruct (endswith filename "_thumb.webp") eqn:Et.
  - intros H. injection H as <- <- <-.
    apply endswith_inv in Et. cbn [String.length] in Et.
    split; [|split; [exact H1|split; [now apply (Hkind "_thumb.webp")|discriminate]]].
    now rewrite <- Et.
  - destruct (endswith filename ".webp") eqn:Ew; [|discriminate].
    intros H. injection H as <- <- <-.
    apply endswith_inv in Ew. cbn [String.length] in Ew.
    split; [|split; [exact H1|split; [now apply (Hkind ".webp")|]]].
    + now rewrite <- Ew.
    + intros _. now rewrite <- Ew.
Qed.

(** X11 at the document "2510.14230" and the kind "teaser". *)
Lemma uploaded_keys_parse_back_witness :
  process_and_upload_figure (fun _ => inr examples.rgba_image) None None []
    "2510.14230" "teaser" 800 200
  = inr {| r2_key := "figures/2510.14230/teaser.webp";
           thumb_key := "figures/2510.14230/teaser_thumb.webp" |}
  /\ parse_figure_key "figures/2510.14230/teaser.webp"
     = Some ("2510.14230", "teaser", false)
  /\ parse_figure_key "figures/2510.14230/teaser_thumb.webp"
     = Some ("2510.14230", "teaser", true).
Proof.
  split; [reflexivity|].
  apply (uploaded_keys_parse_back (fun _ => inr examples.rgba_image) None None []
           "2510.14230" "teaser" 800%Z 200%Z
           {| r2_key := "figures/2510.14230/teaser.webp";
              thumb_key := "figures/2510.14230/teaser_thumb.webp" |});
    reflexivity.
Defined.

(** X12 at the key of a thumbnail. *)
Lemma parse_figure_key_inv_witness :
  parse_figure_key "figures/2510.14230/teaser_thumb.webp"
  = Some ("2510.14230", "teaser", true)
  /\ count "/" "2510.14230" = O /\ count "/" "teaser" = O.
Proof.
  split; [reflexivity|].
  destruct (parse_figure_key_inv "figures/2510.14230/teaser_thumb.webp"
              "2510.14230" "teaser" true eq_refl) as (_ & H1 & H2 & _).
  split; [exact H1 | exact H2].
Defined.

End KeyFacts.

(** ** The catalog client *)

Section CatalogFacts.
Import requests d1_client extract_figures_batch.
Local Open Scope Z_scope.


End CatalogFacts.

(** ** What a document does to the counters, the clock and the logs *)

Section WorkerEffects.
Import requests extract_figures extract_figures_batch.
Local Open Scope Z_scope.

Lemma publish_effects (cfg : config.t) (pub : Publish) (fig : Figure)
    (id kind : string) (p : Proc) (sh : Shared) (r : result) :
  match publish cfg pub fig id kind (p, sh, r) with
  | (s', inr _) => s' = (p, sh, count_upload r)
  | (s', inl _) => s' = (p, sh, r)
  end.
Proof.
  unfold publish, bind, call, on_result, raise, ret.
  destruct (process_figures.process_and_upload_figure _ _ _ _ _ _ _ _); [reflexivity|].
  destruct (d1_client.insert_figure _); reflexivity.
Qed.

Lemma try_block_effects (cfg : config.t) (id : string) (w : DocWorld)
    (p : Proc) (sh : Shared) (r : result) :
  let '(p1, issued, _) := download_pdf (config.ARXIV_RATE_LIMIT cfg) (download w) p in
  match try_block cfg id w (p, sh, r) with
  | ((p', sh', r'), out) =>
      arxiv_log sh' = arxiv_log sh ++ [issued]
      /\ _last_pdf_download p' = _last_pdf_download p1
      /\ figures_uploaded r <= figures_uploaded r' <= figures_uploaded r + 2
      /\ (success r' = true ->
          success r = true
          \/ exists figures,
               extracted w = inr figures
               /\ 1 <= selected cfg figures
               /\ figures_uploaded r' = figures_uploaded r + selected cfg figures)
  end.
Proof.
  unfold try_block, bind at 1, do_download.
  destruct (download_pdf (config.ARXIV_RATE_LIMIT cfg) (download w) p)
    as [[p1 issued] [e | pdf]]; cbn [arxiv_log].
  { repeat split; try lia. now left. }
  unfold bind at 1, local_call.
  destruct (extracted w) as [msg | figures]; cbn [raise ret].
  { repeat split; try lia. now left. }
  unfold selected. rewrite select_figures_simple_nth.
  destruct (List.filter _ figures) as [|a [|b l]] eqn:Ef; cbn [nth_error length].
  - unfold bind, on_shared, on_result, may_raise, raise, ret.
    destruct (unlink_error w); cbn; repeat split; try lia; now left.
  - unfold when_some. unfold bind at 1.
    pose proof (publish_effects cfg (teaser_publish w) a id "teaser"
                  (sleep (work_duration w) p1)
                  {| failed_file := failed_file sh; arxiv_log := arxiv_log sh ++ [issued];
                     dispatched := dispatched sh |} r) as H1.
    destruct (publish cfg (teaser_publish w) a id "teaser" _) as [s1 [e1 | []]];
      subst s1; cbn.
    { repeat split; try lia. now left. }
    unfold bind, on_result, may_raise, raise, ret.
    destruct (unlink_error w); cbn; repeat split; try lia; try now left.
    intros _. right. exists figures. rewrite Ef. cbn [length]. repeat split; lia.
  - unfold when_some. unfold bind at 1.
    pose proof (publish_effects cfg (teaser_publish w) a id "teaser"
                  (sleep (work_duration w) p1)
                  {| failed_file := failed_file sh; arxiv_log := arxiv_log sh ++ [issued];
                     dispatched := dispatched sh |} r) as H1.
    destruct (publish cfg (teaser_publish w) a id "teaser" _) as [s1 [e1 | []]];
      subst s1; cbn.
    { repeat split; try lia. now left. }
    unfold bind at 1.
    pose proof (publish_effects cfg (architecture_publish w) b id "architecture"
                  (sleep (work_duration w) p1)
                  {| failed_file := failed_file sh; arxiv_log := arxiv_log sh ++ [issued];
                     dispatched := dispatched sh |} (count_upload r)) as H2.
    destruct (publish cfg (architecture_publish w) b id "architecture" _)
      as [s2 [e2 | []]]; subst s2; cbn.
    { repeat split; try lia. now left. }
    unfold bind, on_result, may_raise, raise, ret.
    destruct (unlink_error w); cbn; repeat split; try lia; try now left.
    intros _. right. exists figures. rewrite Ef. cbn [length]. repeat split; lia.
Qed.


Lemma process_paper_effects (cfg : config.t) (id : string) (w : DocWorld)
    (p : Proc) (sh : Shared) :
  let '(p1, issued, _) := download_pdf (config.ARXIV_RATE_LIMIT cfg) (download w) p in
  match process_paper cfg id w p sh with
  | (p', sh', out) =>
      arxiv_log sh' = arxiv_log sh ++ [issued]
      /\ dispatched sh' = dispatched sh ++ [id]
      /\ _last_pdf_download p' = _last_pdf_download p1
      /\ match out with
         | inr r =>
             paper_id r = id
             /\ 0 <= figures_uploaded r <= 2
             /\ (success r = true ->
                 exists figures,
                   extracted w = inr figures
                   /\ 1 <= selected cfg figures
                   /\ figures_uploaded r = selected cfg figures)
         | inl _ => True
         end
  end.
Proof.
  pose proof (process_paper_post cfg id w p sh) as Hpost. cbn zeta in Hpost.
  pose proof (try_block_effects cfg id w p
                (mkShared (failed_file sh) (arxiv_log sh) (dispatched sh ++ [id]))
                (new_result id)) as Heff.
  rewrite process_paper_unfold in *.
  destruct (download_pdf (config.ARXIV_RATE_LIMIT cfg) (download w) p) as [[p1 issued] dl].
  destruct (try_block cfg id w _) as [[[p' sh'] r'] [e | []]].
  - destruct Heff as (Hlog & Hlast & Hn & Hs). cbn in Hlog, Hn, Hs.
    destruct (is_503 e).
    + destruct Hpost as (_ & _ & Hd). repeat split; assumption.
    + destruct Hpost as (Hd & Hid & _). cbn in Hid.
      cbn. repeat split; try assumption; try lia.
      intros Ht. destruct (Hs Ht) as [Hf | (figures & H1 & H2 & H3)]; [discriminate|].
      exists figures. repeat split; try assumption; lia.
  - destruct Heff as (Hlog & Hlast & Hn & Hs). cbn in Hlog, Hn, Hs.
    destruct Hpost as (Hd & Hid & _).
    repeat split; try assumption; try lia.
    intros Ht. destruct (Hs Ht) as [Hf | (figures & H1 & H2 & H3)]; [discriminate|].
    exists figures. repeat split; try assumption; lia.
Qed.

(** X14.  The counter of a result.  [process_paper] reports between 0
    and 2 uploaded figures; when it reports success, the figures had been
    extracted and it reports as many as the selector handed on: the number
    of qualifying figures, 2 at most, and at least 1. *)
Theorem process_paper_figures_uploaded (cfg : config.t) (id : string) (w : DocWorld)
    (p p' : Proc) (sh sh' : Shared) (r : result) :
  process_paper cfg id w p sh = (p', sh', inr r) ->
  0 <= figures_uploaded r <= 2
  /\ (success r = true ->
      exists figures,
        extracted w = inr figures
        /\ figures_uploaded r = selected cfg figures
        /\ 1 <= figures_uploaded r).
Proof.
  intros H. pose proof (process_paper_effects cfg id w p sh) as Heff.
  destruct (download_pdf _ _ p) as [[p1 issued] dl]. rewrite H in Heff.
  destruct Heff as (_ & _ & _ & _ & Hn & Hs). split; [exact Hn|].
  intros Ht. destruct (Hs Ht) as (figures & H1 & H2 & H3).
  exists figures. repeat split; try assumption; lia.
Qed.

Lemma download_pdf_raises (interval : Q) (net : Download) (p : Proc) (e : exn) :
  (download_pdf interval net p).2 = inl e ->
  is_503 e = true ->
  get_reply net = NotReplied e
  \/ exists r, get_reply net = Replied r /\ raise_for_status r = Some e.
Proof.
  unfold download_pdf.
  destruct (get_reply net) as [r | e'].
  - destruct (raise_for_status r) as [e'|] eqn:E.
    + cbn. intros H _. injection H as <-. right. now exists r.
    + destruct (write_error net); cbn; intros H; [|discriminate].
      injection H as <-. discriminate.
  - cbn. intros H _. injection H as <-. now left.
Qed.

Lemma d1_execute_not_503 (post : reply) (e : exn) :
  d1_client._execute post = inl e -> is_503 e = false.
Proof.
  unfold d1_client._execute.
  destruct post as [r | e0].
  - destruct (raise_for_status r) as [e1|].
    + destruct (is_RequestException e1) eqn:E; intros H; injection H as <-;
        [reflexivity|]. destruct e1; try discriminate; reflexivity.
    + destruct (json_success r); [discriminate|]. intros H. now injection H as <-.
  - destruct (is_RequestException e0) eqn:E; intros H; injection H as <-;
      [reflexivity|]. destruct e0; try discriminate; reflexivity.
Qed.

Lemma publish_raises (cfg : config.t) (pub : Publish) (fig : Figure)
    (id kind : string) (s : St) (e : exn) :
  (publish cfg pub fig id kind s).2 = inl e ->
  is_503 e = true ->
  put_full pub = Some e \/ put_thumb pub = Some e.
Proof.
  unfold publish, bind, call, on_result, raise, ret.
  unfold process_figures.process_and_upload_figure, process_figures.downsample_image.
  destruct (Image_open pub (bytes fig)) as [msg | img]; cbn.
  { intros H. injection H as <-. discriminate. }
  destruct (put_full pub) as [e1|]; cbn.
  { intros H _. injection H as <-. now left. }
  destruct (put_thumb pub) as [e2|]; cbn.
  { intros H _. injection H as <-. now right. }
  pose proof (d1_execute_not_503 (d1_post pub)) as Hd.
  unfold d1_client.insert_figure.
  destruct (d1_client._execute (d1_post pub)) as [e3 | []]; cbn.
  - intros H. injection H as <-. rewrite (Hd e3 eq_refl). discriminate.
  - destruct s as [[p sh] r]. cbn. discriminate.
Qed.

Lemma try_block_raises (cfg : config.t) (id : string) (w : DocWorld)
    (p : Proc) (sh : Shared) (r : result) (e : exn) :
  (try_block cfg id w (p, sh, r)).2 = inl e ->
  is_503 e = true -> remote_error w e.
Proof.
  unfold try_block, bind at 1, do_download.
  pose proof (download_pdf_raises (config.ARXIV_RATE_LIMIT cfg) (download w) p e) as Hd.
  destruct (download_pdf (config.ARXIV_RATE_LIMIT cfg) (download w) p)
    as [[p1 issued] [e0 | pdf]]; cbn [snd] in Hd |- *.
  { intros H H5. injection H as ->. unfold remote_error.
    destruct (Hd eq_refl H5) as [H1 | H1]; tauto. }
  clear Hd. unfold bind at 1, local_call.
  destruct (extracted w) as [m | figures]; cbn [raise ret snd].
  { intros H. injection H as <-. discriminate. }
  rewrite select_figures_simple_nth.
  destruct (List.filter _ figures) as [|a [|b l]]; cbn [nth_error].
  - unfold bind, on_shared, on_result, may_raise, raise, ret.
    destruct (unlink_error w); cbn; [|discriminate].
    intros H. injection H as <-. discriminate.
  - unfold when_some. unfold bind at 1.
    pose proof (publish_raises cfg (teaser_publish w) a id "teaser"
                  (sleep (work_duration w) p1,
                   {| failed_file := failed_file sh; arxiv_log := arxiv_log sh ++ [issued];
                      dispatched := dispatched sh |}, r) e) as H1.
    destruct (publish cfg (teaser_publish w) a id "teaser" _) as [s1 [e1 | []]];
      cbn [snd] in H1 |- *.
    { intros H H5. unfold remote_error. destruct (H1 H H5); tauto. }
    unfold bind, on_result, may_raise, raise, ret.
    destruct s1 as [[p2 sh2] r2].
    destruct (unlink_error w); cbn; [|discriminate].
    intros H. injection H as <-. discriminate.
  - unfold when_some. unfold bind at 1.
    pose proof (publish_raises cfg (teaser_publish w) a id "teaser"
                  (sleep (work_duration w) p1,
                   {| failed_file := failed_file sh; arxiv_log := arxiv_log sh ++ [issued];
                      dispatched := dispatched sh |}, r) e) as H1.
    destruct (publish cfg (teaser_publish w) a id "teaser" _) as [s1 [e1 | []]];
      cbn [snd] in H1 |- *.
    { intros H H5. unfold remote_error. destruct (H1 H H5); tauto. }
    unfold bind at 1.
    pose proof (publish_raises cfg (architecture_publish w) b id "architecture" s1 e)
      as H2.
    destruct (publish cfg (architecture_publish w) b id "architecture" s1)
      as [s2 [e2 | []]]; cbn [snd] in H2 |- *.
    { intros H H5. unfold remote_error. destruct (H2 H H5); tauto. }
    unfold bind, on_result, may_raise, raise, ret.
    destruct s2 as [[p3 sh3] r3].
    destruct (unlink_error w); cbn; [|discriminate].
    intros H. injection H as <-. discriminate.
Qed.

(** X23.  Where the rate-limit signal comes from.  When [process_paper]
    raises [ServiceUnavailableError], one of the remote calls of the
    document has raised an [HTTPError] with status 503: the PDF request,
    or the upload of a full-size version or a thumbnail to the object
    store.  No answer of the catalog and no local step (writing or parsing
    the PDF, decoding an image, deleting the file) raises the signal. *)
Theorem signal_comes_from_remote_503 (cfg : config.t) (id : string) (w : DocWorld)
    (p : Proc) (sh : Shared) (msg : string) :
  (process_paper cfg id w p sh).2 = inl (ServiceUnavailable msg) ->
  exists e, is_503 e = true /\ remote_error w e.
Proof.
  rewrite process_paper_unfold.
  pose proof (try_block_raises cfg id w p
                (mkShared (failed_file sh) (arxiv_log sh) (dispatched sh ++ [id]))
                (new_result id)) as H.
  destruct (try_block cfg id w _) as [[[p' sh'] r'] [e | []]]; [|discriminate].
  destruct (is_503 e) eqn:E; [|discriminate].
  intros _. exists e. split; [exact E|]. now apply H.
Qed.

Section Runs.
Variables (cfg : config.t) (world : string -> DocWorld).

Section Producer.
Context {S : Type}
  (next : string -> S -> Shared -> S * Shared * (ServiceUnavailableError + result))
  (Hnext : runs_worker cfg world next).


Lemma collect_results_inv (P : string -> result -> Prop) :
  (forall arg p sh r, (process_paper cfg arg (world arg) p sh).2 = inr r -> P arg r) ->
  forall ids s sh acc s' sh' rs,
    collect next ids s sh acc = (s', sh', inr rs) ->
    exists rs', rs = acc ++ rs' /\ Forall2 P ids rs'.
Proof.
  intros Hstep ids. induction ids as [|a ids IH]; intros s sh acc s' sh' rs.
  - cbn. intros H. injection H as <- <- <-. exists []. split; [now rewrite app_nil_r|].
    constructor.
  - cbn [collect]. destruct (Hnext a s sh) as (p & _ & Hout).
    specialize (Hstep a p sh). rewrite <- Hout in Hstep.
    destruct (next a s sh) as [[s1 sh1] [[msg] | item]]; cbn in Hstep; [discriminate|].
    intros H. apply IH in H as (rs' & -> & HF).
    exists (item :: rs'). split; [now rewrite <- app_assoc|].
    constructor; [now apply Hstep | exact HF].
Qed.

End Producer.

Variables (catalog : exn + list string) (file : option (list string)) (me : Proc)
          (max_count workers : Z) (paper_id : option string).


Lemma main_completed_results (P : string -> result -> Prop) (results : list result) :
  (forall arg p sh r, (process_paper cfg arg (world arg) p sh).2 = inr r -> P arg r) ->
  exit (main cfg catalog world file me max_count workers paper_id) = Completed results ->
  exists ids,
    worklist catalog file max_count paper_id = inr ids /\ Forall2 P ids results.
Proof.
  intros Hstep. unfold main.
  destruct (worklist catalog file max_count paper_id) as [e | [|a ids]]; try discriminate.
  set (l := a :: ids). destruct (Z.ltb 1 workers).
  - destruct (collect (pool_next cfg world) l _ _ []) as [[ws sh'] [msg | rs]] eqn:E;
      [discriminate|].
    cbn. intros H. injection H as <-.
    apply (collect_results_inv (pool_next cfg world) (pool_runs_worker cfg world) P Hstep)
      in E as (rs' & -> & HF).
    exists l. split; [reflexivity | exact HF].
  - destruct (collect (sequential_next cfg world) l _ _ []) as [[ws sh'] [msg | rs]] eqn:E;
      [discriminate|].
    cbn. intros H. injection H as <-.
    apply (collect_results_inv (sequential_next cfg world)
             (sequential_runs_worker cfg world) P Hstep) in E as (rs' & -> & HF).
    exists l. split; [reflexivity | exact HF].
Qed.


Lemma total_figures_app (l : list Z) (z : Z) : fold_left Z.add l z = z + fold_left Z.add l 0.
Proof.
  revert z. induction l as [|a l IH]; intros z; cbn; [lia|].
  rewrite (IH (z + a)), (IH (0 + a)). lia.
Qed.

(** X16.  The summary of a run that completes.  The results are those of
    the documents of the worklist, one each and in its order; every result
    counts as successful or as failed; the total of uploaded figures is at
    least the number of successful documents and at most twice the number
    of documents. *)
Theorem main_summary (results : list result) :
  exit (main cfg catalog world file me max_count workers paper_id) = Completed results ->
  exists ids,
    worklist catalog file max_count paper_id = inr ids
    /\ map extract_figures_batch.paper_id results = ids
    /\ (length (successful results) + length (failed results))%nat = length results
    /\ Z.of_nat (length (successful results)) <= total_figures results
       <= 2 * Z.of_nat (length results).
Proof.
  intros H.
  apply (main_completed_results
           (fun arg r => extract_figures_batch.paper_id r = arg
                         /\ 0 <= figures_uploaded r <= 2
                         /\ (success r = true -> 1 <= figures_uploaded r)))
    in H as (ids & Hw & HF).
  - exists ids. split; [exact Hw|]. clear Hw.
    unfold successful, failed, total_figures.
    induction HF as [|a r ids rs (Hid & Hn & Hs) HF IH]; [cbn; repeat split; lia|].
    destruct IH as (IH1 & IH2 & IH3).
    cbn [map List.filter fold_left]. rewrite total_figures_app.
    destruct (success r) eqn:Es; cbn [negb length]; (split; [now rewrite Hid, IH1|]).
    + specialize (Hs eq_refl). split; lia.
    + split; lia.
  - intros arg p sh r Hr.
    pose proof (process_paper_effects cfg arg (world arg) p sh) as Heff.
    destruct (download_pdf _ _ p) as [[p1 issued] dl].
    destruct (process_paper cfg arg (world arg) p sh) as [[p' sh'] out].
    cbn in Hr. subst out. destruct Heff as (_ & _ & _ & Hid & Hn & Hs).
    repeat split; try assumption; try lia.
    intros Ht. destruct (Hs Ht) as (figures & _ & H1 & H2). lia.
Qed.


Lemma StronglySorted_snoc {A : Type} (R : A -> A -> Prop) (l : list A) (x : A) :
  StronglySorted R l -> Forall (fun a => R a x) l -> StronglySorted R (l ++ [x]).
Proof.
  intros Hs Hx. induction Hs as [|a l Hs IH Ha]; [repeat constructor|].
  cbn [app]. apply Forall_cons in Hx as [Hax Hx]. constructor; [now apply IH|].
  apply Forall_app. split; [exact Ha|]. now constructor.
Qed.

Lemma combine_snoc {A B : Type} (l : list A) (l' : list B) (a : A) (b : B) :
  length l = length l' -> combine (l ++ [a]) (l' ++ [b]) = combine l l' ++ [(a, b)].
Proof.
  revert l'. induction l as [|x l IH]; intros [|y l'] H; try discriminate; [reflexivity|].
  cbn. f_equal. apply IH. now injection H.
Qed.

Lemma process_paper_spacing (arg : string) (p : Proc) (sh : Shared) :
  (0 <= config.ARXIV_RATE_LIMIT cfg)%Q ->
  (forall id, (0 <= get_duration (download (world id)))%Q) ->
  spacing_inv cfg world p sh ->
  spacing_inv cfg world (process_paper cfg arg (world arg) p sh).1.1
              (process_paper cfg arg (world arg) p sh).1.2.
Proof.
  intros HI Hdur (Hlen & Hs & Hf).
  pose proof (process_paper_effects cfg arg (world arg) p sh) as Heff.
  pose proof (download_pdf_waits (config.ARXIV_RATE_LIMIT cfg) (download (world arg)) p)
    as Hw.
  pose proof (download_pdf_timestamp (config.ARXIV_RATE_LIMIT cfg) (download (world arg)) p)
    as Ht.
  cbn zeta in Hw.
  destruct (download_pdf _ _ p) as [[p1 issued] dl]. cbn [fst snd] in Hw.
  destruct (process_paper cfg arg (world arg) p sh) as [[p' sh'] out].
  destruct Heff as (Hlog & Hd & Hlast & _). cbn [fst snd].
  destruct Hw as (_ & Hwait & _).
  assert ((_last_pdf_download p <= _last_pdf_download p')%Q
          /\ (answered (world arg) = true ->
              (issued + get_duration (download (world arg)) <= _last_pdf_download p')%Q))
    as [Hmono Hnew].
  { rewrite Hlast. unfold answered. specialize (Hdur arg).
    destruct (get_reply (download (world arg))) as [r | e].
    - destruct (raise_for_status r).
      + rewrite Ht. split; [lra | discriminate].
      + rewrite Ht. split; intros; lra.
    - rewrite Ht. split; [lra | discriminate]. }
  unfold spacing_inv, requests_of. rewrite Hlog, Hd, !length_app.
  rewrite combine_snoc by exact Hlen.
  split; [cbn; lia|]. split.
  - apply StronglySorted_snoc; [exact Hs|].
    eapply List.Forall_impl; [|exact Hf].
    intros a Ha Hans. specialize (Ha Hans). cbn [fst snd]. lra.
  - apply Forall_app. split.
    + eapply List.Forall_impl; [|exact Hf].
      intros a Ha Hans. specialize (Ha Hans). lra.
    + constructor; [|constructor]. exact Hnew.
Qed.

Lemma collect_sequential_spacing (ids : list string) (p : Proc) (sh : Shared)
    (acc : list result) :
  (0 <= config.ARXIV_RATE_LIMIT cfg)%Q ->
  (forall id, (0 <= get_duration (download (world id)))%Q) ->
  spacing_inv cfg world p sh ->
  spacing_inv cfg world (collect (sequential_next cfg world) ids p sh acc).1.1
              (collect (sequential_next cfg world) ids p sh acc).1.2.
Proof.
  intros HI Hdur. revert p sh acc.
  induction ids as [|a ids IH]; intros p sh acc Hinv; [exact Hinv|].
  cbn [collect].
  change (sequential_next cfg world a p sh) with (process_paper cfg a (world a) p sh).
  pose proof (process_paper_spacing a p sh HI Hdur Hinv) as Hstep.
  destruct (process_paper cfg a (world a) p sh) as [[p' sh'] [[msg] | item]];
    cbn [fst snd] in Hstep |- *.
  - exact Hstep.
  - now apply IH.
Qed.

(** X17.  The spacing of the PDF requests of a run with one worker (all
    documents are processed in the process that runs [main]): a request
    goes out no earlier than [PDF_MIN_INTERVAL] after the response to any
    earlier request of the run that was answered with a good status.  (The
    interval and the time a request takes are not negative.)  A request
    that failed does not delay the next one. *)
Theorem sequential_requests_spaced :
  workers <= 1 ->
  (0 <= config.ARXIV_RATE_LIMIT cfg)%Q ->
  (forall id, (0 <= get_duration (download (world id)))%Q) ->
  StronglySorted (spaced (config.ARXIV_RATE_LIMIT cfg) world)
    (requests_of (shared (main cfg catalog world file me max_count workers paper_id))).
Proof.
  intros Hw HI Hdur. unfold main.
  assert (spacing_inv cfg world me (mkShared file [] [])) as H0.
  { repeat split; constructor. }
  destruct (worklist catalog file max_count paper_id) as [e | [|a ids]];
    try (cbn; constructor).
  set (l := a :: ids).
  replace (Z.ltb 1 workers) with false by (symmetry; apply Z.ltb_ge; exact Hw).
  pose proof (collect_sequential_spacing l me _ [] HI Hdur H0) as H.
  destruct (collect (sequential_next cfg world) l me _ []) as [[p' sh'] [msg | rs]];
    cbn in H |- *; apply H.
Qed.


End Runs.

(** X14 at document "A" of [examples.world]: one figure qualifies and is
    uploaded. *)
Lemma process_paper_figures_uploaded_witness :
  (process_paper config.default "A" (examples.world "A") examples.me
     (mkShared None [] [])).2 = inr examples.result_A
  /\ 0 <= figures_uploaded examples.result_A <= 2
  /\ exists figures,
       extracted (examples.world "A") = inr figures
       /\ figures_uploaded examples.result_A = selected config.default figures.
Proof.
  split; [reflexivity|].
  destruct (process_paper_figures_uploaded config.default "A" (examples.world "A")
              examples.me
              (process_paper config.default "A" (examples.world "A") examples.me
                 (mkShared None [] [])).1.1
              (mkShared None [] [])
              (process_paper config.default "A" (examples.world "A") examples.me
                 (mkShared None [] [])).1.2
              examples.result_A eq_refl) as [Hn Hs].
  split; [exact Hn|].
  destruct (Hs eq_refl) as (figures & H1 & H2 & _).
  exists figures. split; [exact H1 | exact H2].
Defined.

(** X23 at document "C" of [examples.world], whose PDF request is
    answered with status 503. *)
Lemma signal_comes_from_remote_503_witness :
  (process_paper config.default "C" (examples.world "C") examples.me
     (mkShared None [] [])).2 = inl (ServiceUnavailable msg_503)
  /\ exists e, is_503 e = true /\ remote_error (examples.world "C") e.
Proof.
  split; [reflexivity|].
  exact (signal_comes_from_remote_503 config.default "C" (examples.world "C")
           examples.me (mkShared None [] []) msg_503 eq_refl).
Defined.

(** X16 at the worklist "A", "B", "D", "A" of [examples.world], with two
    workers: two documents succeed, two fail, two figures are uploaded. *)
Lemma main_summary_witness :
  exit (main config.default (inr ["A"; "B"; "D"; "A"]%string) examples.world None
          examples.me 100 2 None)
  = Completed [examples.result_A; examples.result_B; examples.result_D;
               examples.result_A]
  /\ exists ids,
       worklist (inr ["A"; "B"; "D"; "A"]%string) None 100 None = inr ids
       /\ map paper_id [examples.result_A; examples.result_B; examples.result_D;
                        examples.result_A] = ids
       /\ Z.of_nat (length (successful [examples.result_A; examples.result_B;
                                        examples.result_D; examples.result_A]))
          <= total_figures [examples.result_A; examples.result_B; examples.result_D;
                            examples.result_A].
Proof.
  split; [reflexivity|].
  destruct (main_summary config.default examples.world
              (inr ["A"; "B"; "D"; "A"]%string) None examples.me 100 2 None
              [examples.result_A; examples.result_B; examples.result_D;
               examples.result_A] eq_refl) as (ids & H1 & H2 & _ & H3 & _).
  exists ids. split; [exact H1|]. split; [exact H2 | exact H3].
Defined.

(** X17 at the worklist "A", "B", "D", "A" of [examples.world] with one
    worker and the interval of 3.5 seconds. *)
Lemma sequential_requests_spaced_witness :
  (1 <= 1 /\ (0 <= config.ARXIV_RATE_LIMIT config.default)%Q
   /\ forall id, (0 <= get_duration (download (examples.world id)))%Q)
  /\ StronglySorted (spaced (config.ARXIV_RATE_LIMIT config.default) examples.world)
       (requests_of
          (shared (main config.default (inr ["A"; "B"; "D"; "A"]%string) examples.world
                     None examples.me 100 1 None))).
Proof.
  assert ((0 <= config.ARXIV_RATE_LIMIT config.default)%Q) as HI
    by (vm_compute; discriminate).
  assert (forall id, (0 <= get_duration (download (examples.world id)))%Q) as Hdur.
  { intros id. unfold examples.world.
    repeat (destruct (String.eqb id _)); vm_compute; discriminate. }
  split; [split; [lia | split; [exact HI | exact Hdur]]|].
  apply (sequential_requests_spaced config.default examples.world
           (inr ["A"; "B"; "D"; "A"]%string) None examples.me 100 1 None);
    [lia | exact HI | exact Hdur].
Defined.

End WorkerEffects.

(** ** The ledger and the worklist, once more *)

Section LedgerFacts.
Import requests extract_figures extract_figures_batch.





Lemma filter_none {A : Type} (f : A -> bool) (l : list A) :
  (forall x, In x l -> f x = false) -> List.filter f l = [].
Proof.
  induction l as [|a l IH]; intros H; [reflexivity|].
  cbn. rewrite (H a (or_introl eq_refl)). apply IH. intros x Hx. apply H. now right.
Qed.

Lemma worklist_batch (paper_ids_all : list string)
    (file : option (list string)) (max_count : Z) (paper_id : option string) :
  paper_id = None \/ paper_id = Some ""%string ->
  worklist (inr paper_ids_all) file max_count paper_id
  = inr (slice_to max_count (candidates file paper_ids_all)).
Proof. intros [-> | ->]; reflexivity. Qed.

Lemma slice_to_prefix {A : Type} (n : Z) (c : list A) :
  exists rest,
    c = slice_to n c ++ rest
    /\ (0 <= n -> Z.of_nat (length (slice_to n c)) = Z.min n (Z.of_nat (length c)))%Z
    /\ (n < 0 -> Z.of_nat (length (slice_to n c)) = Z.max 0 (Z.of_nat (length c) + n))%Z.
Proof.
  unfold slice_to. destruct (Z.leb 0 n) eqn:E.
  - apply Z.leb_le in E. exists (skipn (Z.to_nat n) c).
    split; [now rewrite firstn_skipn|]. rewrite length_firstn. split; lia.
  - apply Z.leb_gt in E. exists (skipn (length c - Z.to_nat (- n)) c).
    split; [now rewrite firstn_skipn|]. rewrite length_firstn. split; lia.
Qed.

(** X20.  The worklist of a batch run is an initial part of the
    candidates (the catalog's answer without the identifiers of the
    ledger, in the catalog's order).  With a maximum count that is not
    negative it has that many documents, or all candidates if there are
    fewer; with a negative maximum count [-k] it has all candidates but
    the last [k]. *)
Theorem worklist_is_bounded_prefix (paper_ids_all : list string)
    (file : option (list string)) (max_count : Z) (paper_id : option string) :
  paper_id = None \/ paper_id = Some ""%string ->
  exists ids rest,
    worklist (inr paper_ids_all) file max_count paper_id = inr ids
    /\ candidates file paper_ids_all = ids ++ rest
    /\ (0 <= max_count ->
        Z.of_nat (length ids)
        = Z.min max_count (Z.of_nat (length (candidates file paper_ids_all))))%Z
    /\ (max_count < 0 ->
        Z.of_nat (length ids)
        = Z.max 0 (Z.of_nat (length (candidates file paper_ids_all)) + max_count))%Z.
Proof.
  intros Hmode. rewrite (worklist_batch _ _ _ _ Hmode).
  destruct (slice_to_prefix max_count (candidates file paper_ids_all))
    as (rest & H1 & H2 & H3).
  exists (slice_to max_count (candidates file paper_ids_all)), rest.
  split; [reflexivity|]. split; [exact H1|]. split; assumption.
Qed.

(** X21.  A batch run with nothing to do.  When the maximum count is 0,
    or every identifier the catalog answers is in the ledger, or the
    maximum count is negative and the catalog answers no more identifiers
    than its absolute value, [main] returns after "No papers to process":
    no document is handed to [process_paper], no request is sent, the
    ledger file is left as it was and no pool is started. *)
Theorem main_nothing_to_do (cfg : config.t) (paper_ids_all : list string)
    (world : string -> DocWorld) (file : option (list string)) (me : Proc)
    (max_count workers : Z) (paper_id : option string) :
  paper_id = None \/ paper_id = Some ""%string ->
  max_count = 0%Z
  \/ (forall p, In p paper_ids_all -> p ∈ load_failed_extractions file)
  \/ (max_count < 0 /\ Z.of_nat (length paper_ids_all) <= - max_count)%Z ->
  main cfg (inr paper_ids_all) world file me max_count workers paper_id
  = {| exit := NothingToDo; shared := mkShared file [] []; pool := None;
       terminated_by_collect := false |}.
Proof.
  intros Hmode Hcase.
  pose proof (worklist_batch paper_ids_all file max_count paper_id Hmode) as Hw.
  destruct (slice_to_prefix max_count (candidates file paper_ids_all))
    as (rest & Hc & Hpos & Hneg).
  assert (slice_to max_count (candidates file paper_ids_all) = []) as E.
  { apply length_zero_iff_nil.
    assert (length (candidates file paper_ids_all) <= length paper_ids_all)%nat as Hle
      by apply List.filter_length_le.
    destruct Hcase as [-> | [Hall | [Hlt Hlen]]].
    - specialize (Hpos ltac:(lia)). lia.
    - assert (candidates file paper_ids_all = []) as E.
      { unfold candidates. apply filter_none. intros p Hp.
        apply negb_false_iff, bool_decide_eq_true. now apply Hall. }
      rewrite E. unfold slice_to. destruct (Z.leb 0 max_count); now rewrite firstn_nil.
    - specialize (Hneg Hlt). lia. }
  unfold main. now rewrite Hw, E.
Qed.




(** X20 at a catalog of three documents of which one is in the ledger,
    with the maximum count 1. *)
Lemma worklist_is_bounded_prefix_witness :
  exists ids rest,
    worklist (inr ["A"; "B"; "D"]%string) (Some ["A"%string]) 1 None = inr ids
    /\ candidates (Some ["A"%string]) ["A"; "B"; "D"]%string = ids ++ rest
    /\ (0 <= 1 ->
        Z.of_nat (length ids)
        = Z.min 1 (Z.of_nat (length (candidates (Some ["A"%string])
                                       ["A"; "B"; "D"]%string))))%Z.
Proof.
  destruct (worklist_is_bounded_prefix ["A"; "B"; "D"]%string (Some ["A"%string]) 1 None
              (or_introl eq_refl)) as (ids & rest & H1 & H2 & H3 & _).
  exists ids, rest. split; [exact H1|]. split; [exact H2 | exact H3].
Defined.

(** X21 at the maximum count 0. *)
Lemma main_nothing_to_do_witness :
  exit (main config.default (inr ["A"; "B"]%string) examples.world None examples.me
          0 2 None) = NothingToDo
  /\ dispatched (shared (main config.default (inr ["A"; "B"]%string) examples.world
                           None examples.me 0 2 None)) = [].
Proof.
  rewrite (main_nothing_to_do config.default ["A"; "B"]%string examples.world None
             examples.me 0 2 None (or_introl eq_refl) (or_introl eq_refl)).
  split; reflexivity.
Defined.

End LedgerFacts.
